(** * core-js-101, [src/05-objects-tasks.js]: the CSS selector builder

    A shallow embedding of [Rectangle], of the class [MyBuilder] and of the
    facade [cssSelectorBuilder], followed by the properties stated for them.

    Builders are JavaScript objects: every setter mutates [this] and returns
    it, and [combine] reads two builders while it creates a third.  The
    embedding therefore keeps a heap of builder objects addressed by
    references, and every method is a computation over that heap which may
    complete normally or throw. *)

From Stdlib Require Import PrimFloat.
From stdpp Require Import base option list strings finite gmap sorting.

(** * Part I: the embedding and the vocabulary of the statements *)

(** ** JavaScript values and string primitives *)

(** The values stored in the fields of [selectorObject]: [null] or a string. *)
Inductive value : Type :=
  | Null
  | Str (s : string).

(** [a === b] on such values. *)
Definition strict_eq (a b : value) : bool :=
  match a, b with
  | Null, Null => true
  | Str s, Str t => String.eqb s t
  | _, _ => false
  end.

(** A substitution [${v}] of a template literal (ToString). *)
Definition tpl (v : value) : string :=
  match v with
  | Null => "null"
  | Str s => s
  end.

(** [Array.prototype.join]: a [null] element contributes the empty string. *)
Definition join_item (v : value) : string :=
  match v with
  | Null => ""
  | Str s => s
  end.

Fixpoint join (sep : string) (xs : list value) : string :=
  match xs with
  | [] => ""
  | [x] => join_item x
  | x :: rest => join_item x +:+ sep +:+ join sep rest
  end.

(** [String.prototype.includes]: [sub] occurs in [s] at some position. *)
Fixpoint includes (s sub : string) : bool :=
  String.prefix sub s ||
  match s with
  | EmptyString => false
  | String _ s' => includes s' sub
  end.

(** ** Rectangle *)

Module Rectangle.

(** [width] and [height] are JavaScript numbers, IEEE 754 binary64. *)
Record t : Type := new { width : float; height : float }.

(** [this.getArea = () => this.width * this.height] *)
Definition getArea (this : t) : float := (width this * height this)%float.

End Rectangle.

(** ** The object literal held in [this.selectorObject] *)

Module selectorObject.

Record t : Type := mk {
  element : value;
  id : value;
  class : value;
  attr : value;
  pseudoClass : value;
  pseudoElement : value
}.

(** The own properties, in creation order. *)
Definition entries (o : t) : list (string * value) :=
  [ ("element", element o); ("id", id o); ("class", class o);
    ("attr", attr o); ("pseudoClass", pseudoClass o);
    ("pseudoElement", pseudoElement o) ].

(** [Object.keys(o)] and [Object.values(o)] *)
Definition keys (o : t) : list string := (entries o).*1.
Definition values (o : t) : list value := (entries o).*2.

(** [o[key]]; [None] stands for [undefined]. *)
Definition get (o : t) (key : string) : option value :=
  snd <$> List.find (fun kv => String.eqb (fst kv) key) (entries o).

(** Assignments [o.field = v]. *)
Definition set_element (v : value) (o : t) : t :=
  mk v (id o) (class o) (attr o) (pseudoClass o) (pseudoElement o).
Definition set_id (v : value) (o : t) : t :=
  mk (element o) v (class o) (attr o) (pseudoClass o) (pseudoElement o).
Definition set_class (v : value) (o : t) : t :=
  mk (element o) (id o) v (attr o) (pseudoClass o) (pseudoElement o).
Definition set_attr (v : value) (o : t) : t :=
  mk (element o) (id o) (class o) v (pseudoClass o) (pseudoElement o).
Definition set_pseudoClass (v : value) (o : t) : t :=
  mk (element o) (id o) (class o) (attr o) v (pseudoElement o).
Definition set_pseudoElement (v : value) (o : t) : t :=
  mk (element o) (id o) (class o) (attr o) (pseudoClass o) v.

End selectorObject.

(** ** Heap, completions and the monad of method bodies *)

Inductive exn : Type :=
  | Error (message : string).

Inductive completion (A : Type) : Type :=
  | Normal (a : A)
  | Throw (e : exn).
Arguments Normal {A} a.
Arguments Throw {A} e.

(** The fields of a [MyBuilder] instance, as the constructor creates them. *)
Record builder : Type := mkBuilder {
  checkElementString : string;
  checkIdString : string;
  checkClassString : string;
  checkAttrString : string;
  checkPseudoString : string;
  uniError : string;
  ordError : string;
  selectorText : string;
  selectorObject : selectorObject.t
}.

(** References are positions in the heap, a list that only grows. *)
Abbreviation ref := nat (only parsing).
Abbreviation heap := (list builder) (only parsing).

(** A computation returns [None] only when it dereferences a reference that
    the heap does not hold, which no JavaScript program can do. *)
Definition M (A : Type) : Type := heap -> option (heap * completion A).

#[global] Instance M_ret : MRet M := fun A a h => Some (h, Normal a).

#[global] Instance M_bind : MBind M := fun A B f m h =>
  match m h with
  | Some (h', Normal a) => f a h'
  | Some (h', Throw e) => Some (h', Throw e)
  | None => None
  end.

Definition throw {A : Type} (e : exn) : M A := fun h => Some (h, Throw e).

(** Reading [r.f], or any expression [f] over the fields of [r]. *)
Definition get {A : Type} (r : ref) (f : builder -> A) : M A := fun h =>
  match h !! r with
  | Some b => Some (h, Normal (f b))
  | None => None
  end.

(** An assignment to a field of [r]: [f] rebuilds the record around it. *)
Definition update (r : ref) (f : builder -> builder) : M unit := fun h =>
  match h !! r with
  | Some b => Some (<[r := f b]> h, Normal tt)
  | None => None
  end.

Definition alloc (b : builder) : M ref := fun h =>
  Some (h ++ [b], Normal (length h)).

(** [try { m } catch (e) { }]: the completion becomes an ordinary result. *)
Definition try {A : Type} (m : M A) : M (completion A) := fun h =>
  match m h with
  | Some (h', c) => Some (h', Normal c)
  | None => None
  end.

(** ** class MyBuilder *)

Module MyBuilder.

Definition set_selectorText (s : string) (b : builder) : builder :=
  mkBuilder (checkElementString b) (checkIdString b) (checkClassString b)
    (checkAttrString b) (checkPseudoString b) (uniError b) (ordError b)
    s (selectorObject b).

Definition set_selectorObject (o : selectorObject.t) (b : builder) : builder :=
  mkBuilder (checkElementString b) (checkIdString b) (checkClassString b)
    (checkAttrString b) (checkPseudoString b) (uniError b) (ordError b)
    (selectorText b) o.

(** The object a constructor call initialises. *)
Definition fresh : builder :=
  {| checkElementString := "element id class attr pseudoClass pseudoElement";
     checkIdString := "id class attr pseudoClass pseudoElement";
     checkClassString := "attr pseudoClass pseudoElement";
     checkAttrString := "pseudoClass pseudoElement";
     checkPseudoString := "pseudoElement";
     uniError := "Element, id and pseudo-element should not occur more then one time inside the selector";
     ordError := "Selector parts should be arranged in the following order: element, id, class, attribute, pseudo-class, pseudo-element";
     selectorText := "";
     selectorObject :=
       selectorObject.mk Null Null (Str "") (Str "") (Str "") Null |}.

(** [new MyBuilder()] *)
Definition constructor : M ref := alloc fresh.

(** [this.selectorObject.f = v], for the setter [set_f] of field [f]. *)
Definition assign_field (this : ref)
    (set_f : value -> selectorObject.t -> selectorObject.t) (v : value)
    : M unit :=
  update this (fun b => set_selectorObject (set_f v (selectorObject b)) b).

Definition stringify (this : ref) : M string :=
  text ← get this selectorText;
  o ← get this selectorObject;
  mret (text +:+ join "" (selectorObject.values o)).

(** The callback of the filter in [getNulls]. *)
Definition null_or_empty (o : selectorObject.t) (key : string) : bool :=
  match selectorObject.get o key with
  | Some v => strict_eq v Null || strict_eq v (Str "")
  | None => false
  end.

Definition getNulls (this : ref) : M string :=
  o ← get this selectorObject;
  mret (join " "
    (Str <$> List.filter (null_or_empty o) (selectorObject.keys o))).

Definition selector (this : ref) (value : string) : M ref :=
  text ← get this selectorText;
  update this (set_selectorText (text +:+ value));;
  mret this.

Definition element (this : ref) (value : string) : M ref :=
  e ← get this (fun b => selectorObject.element (selectorObject b));
  if negb (strict_eq e Null)
  then msg ← get this uniError; throw (Error msg) else
  nulls ← getNulls this;
  check ← get this checkElementString;
  if negb (String.eqb nulls check)
  then msg ← get this ordError; throw (Error msg) else
  assign_field this selectorObject.set_element (Str value);;
  mret this.

Definition id (this : ref) (value : string) : M ref :=
  i ← get this (fun b => selectorObject.id (selectorObject b));
  if negb (strict_eq i Null)
  then msg ← get this uniError; throw (Error msg) else
  nulls ← getNulls this;
  check ← get this checkIdString;
  if negb (includes nulls check)
  then msg ← get this ordError; throw (Error msg) else
  assign_field this selectorObject.set_id (Str ("#" +:+ value));;
  mret this.

Definition class (this : ref) (value : string) : M ref :=
  nulls ← getNulls this;
  check ← get this checkClassString;
  if negb (includes nulls check)
  then msg ← get this ordError; throw (Error msg) else
  old ← get this (fun b => selectorObject.class (selectorObject b));
  assign_field this selectorObject.set_class
    (Str (tpl old +:+ "." +:+ value));;
  mret this.

Definition attr (this : ref) (value : string) : M ref :=
  nulls ← getNulls this;
  check ← get this checkAttrString;
  if negb (includes nulls check)
  then msg ← get this ordError; throw (Error msg) else
  old ← get this (fun b => selectorObject.attr (selectorObject b));
  assign_field this selectorObject.set_attr
    (Str (tpl old +:+ "[" +:+ value +:+ "]"));;
  mret this.

Definition pseudoClass (this : ref) (value : string) : M ref :=
  nulls ← getNulls this;
  check ← get this checkPseudoString;
  if negb (includes nulls check)
  then msg ← get this ordError; throw (Error msg) else
  old ← get this (fun b => selectorObject.pseudoClass (selectorObject b));
  assign_field this selectorObject.set_pseudoClass
    (Str (tpl old +:+ ":" +:+ value));;
  mret this.

Definition pseudoElement (this : ref) (value : string) : M ref :=
  e ← get this (fun b => selectorObject.pseudoElement (selectorObject b));
  if negb (strict_eq e Null)
  then msg ← get this uniError; throw (Error msg) else
  nulls ← getNulls this;
  check ← get this checkPseudoString;
  if negb (includes nulls check)
  then msg ← get this ordError; throw (Error msg) else
  assign_field this selectorObject.set_pseudoElement (Str ("::" +:+ value));;
  mret this.

End MyBuilder.

(** ** The facade [cssSelectorBuilder] *)

Module cssSelectorBuilder.

Definition stringify : M string :=
  r ← MyBuilder.constructor; MyBuilder.stringify r.

Definition element (value : string) : M ref :=
  r ← MyBuilder.constructor; MyBuilder.element r value.

Definition id (value : string) : M ref :=
  r ← MyBuilder.constructor; MyBuilder.id r value.

Definition class (value : string) : M ref :=
  r ← MyBuilder.constructor; MyBuilder.class r value.

Definition attr (value : string) : M ref :=
  r ← MyBuilder.constructor; MyBuilder.attr r value.

Definition pseudoClass (value : string) : M ref :=
  r ← MyBuilder.constructor; MyBuilder.pseudoClass r value.

Definition pseudoElement (value : string) : M ref :=
  r ← MyBuilder.constructor; MyBuilder.pseudoElement r value.

(** The receiver [new MyBuilder()] is evaluated before the argument, and
    the template literal evaluates [selector1.stringify()] before
    [selector2.stringify()]. *)
Definition combine (selector1 : ref) (combinator : string) (selector2 : ref)
    : M ref :=
  r ← MyBuilder.constructor;
  s1 ← MyBuilder.stringify selector1;
  s2 ← MyBuilder.stringify selector2;
  MyBuilder.selector r (s1 +:+ " " +:+ combinator +:+ " " +:+ s2).

End cssSelectorBuilder.

(** ** Client programs: sequences of category-setter calls *)

(** The six selector categories, in the order that the class comment fixes. *)
Inductive category : Type :=
  | Element | Id | Class | Attr | PseudoClass | PseudoElement.

#[global] Instance category_eq_dec : EqDecision category.
Proof. solve_decision. Defined.

(** A setter call: which setter, and its argument. *)
Definition call : Type := category * string.

Definition invoke (this : ref) (c : call) : M ref :=
  match c.1 with
  | Element => MyBuilder.element this c.2
  | Id => MyBuilder.id this c.2
  | Class => MyBuilder.class this c.2
  | Attr => MyBuilder.attr this c.2
  | PseudoClass => MyBuilder.pseudoClass this c.2
  | PseudoElement => MyBuilder.pseudoElement this c.2
  end.

(** The fluent chain [this.c1(v1).c2(v2)...]: every setter is called on the
    reference the previous one returned; the first throw ends the chain. *)
Fixpoint chain (this : ref) (cs : list call) : M ref :=
  match cs with
  | [] => mret this
  | c :: cs' => r ← invoke this c; chain r cs'
  end.

(** A sequence of setter calls on arbitrary builders, each one guarded by
    [try ... catch], with the completion of every call recorded. *)
Fixpoint script (s : list (ref * call)) : M (list (completion ref)) :=
  match s with
  | [] => mret []
  | (r, c) :: s' =>
      o ← try (invoke r c);
      os ← script s';
      mret (o :: os)
  end.

(** The calls of [cs] that completed normally, given their completions. *)
Fixpoint accepted (cs : list call) (os : list (completion ref)) : list call :=
  match cs, os with
  | c :: cs', Normal _ :: os' => c :: accepted cs' os'
  | _ :: cs', Throw _ :: os' => accepted cs' os'
  | _, _ => []
  end.

(** [new MyBuilder().selector(p)] followed by guarded setter calls [cs] on
    that builder: the way every builder comes to its state ([p] is empty
    for the builders of the facade's setters, and the joined text for those
    of [combine]). *)
Definition session (p : string) (cs : list call)
    : M (ref * list (completion ref)) :=
  r ← MyBuilder.constructor;
  r ← MyBuilder.selector r p;
  os ← script (pair r <$> cs);
  mret (r, os).

(** The facade method that starts a builder with the setter call [c]. *)
Definition facade (c : call) : M ref :=
  match c.1 with
  | Element => cssSelectorBuilder.element c.2
  | Id => cssSelectorBuilder.id c.2
  | Class => cssSelectorBuilder.class c.2
  | Attr => cssSelectorBuilder.attr c.2
  | PseudoClass => cssSelectorBuilder.pseudoClass c.2
  | PseudoElement => cssSelectorBuilder.pseudoElement c.2
  end.

(** *** What the rendering and the checks are stated against *)

Definition category_index (c : category) : nat :=
  match c with
  | Element => 0 | Id => 1 | Class => 2
  | Attr => 3 | PseudoClass => 4 | PseudoElement => 5
  end.

(** [c] comes strictly before [d] in the fixed order. *)
Definition before (c d : category) : Prop := category_index c < category_index d.

(** Element, id and pseudo-element may occur once. *)
Definition singular (c : category) : bool :=
  match c with
  | Element | Id | PseudoElement => true
  | Class | Attr | PseudoClass => false
  end.

(** The arguments that the calls of category [c] passed, in call order. *)
Definition fragments (c : category) (cs : list call) : list string :=
  (filter (fun x => x.1 = c) cs).*2.

(** Category [c] has received a call. *)
Definition touched (c : category) (cs : list call) : Prop := c ∈ cs.*1.

#[global] Instance before_dec c d : Decision (before c d).
Proof. unfold before. apply _. Defined.

#[global] Instance touched_dec c cs : Decision (touched c cs).
Proof. unfold touched. apply _. Defined.

#[global] Program Instance category_finite : Finite category :=
  {| enum := [Element; Id; Class; Attr; PseudoClass; PseudoElement] |}.
Next Obligation. by apply (bool_decide_unpack _). Qed.
Next Obligation. intros []; by apply (bool_decide_unpack _). Qed.

(** Every fragment wrapped in [pre] and [post], concatenated in order. *)
Fixpoint wrap_all (pre post : string) (vs : list string) : string :=
  match vs with
  | [] => ""
  | v :: vs' => pre +:+ v +:+ post +:+ wrap_all pre post vs'
  end.

(** The rendering of the fragments of [cs] behind the prefix text [p]. *)
Definition render (p : string) (cs : list call) : string :=
  p +:+ wrap_all "" "" (fragments Element cs)
    +:+ wrap_all "#" "" (fragments Id cs)
    +:+ wrap_all "." "" (fragments Class cs)
    +:+ wrap_all "[" "]" (fragments Attr cs)
    +:+ wrap_all ":" "" (fragments PseudoClass cs)
    +:+ wrap_all "::" "" (fragments PseudoElement cs).

(** ** The reference model of the checks

    The design notes describe the checks with explicit state: the set of
    categories touched so far and a pointer to the highest category touched.
    A call is rejected for uniqueness when its category is singular and
    already touched, for ordering when its category is behind the pointer;
    an accepted call is added to the set and moves the pointer. *)

Inductive kind : Type := Uniqueness | Ordering.

Inductive verdict : Type :=
  | Accepted
  | Rejected (k : kind).

Module Reference.

Record state : Type := mk {
  touched : gset category;
  highest : option category
}.

Definition init : state := mk ∅ None.

Definition behind (c : category) (pointer : option category) : bool :=
  match pointer with
  | Some d => bool_decide (category_index c < category_index d)
  | None => false
  end.

Definition call (c : category) (st : state) : verdict * state :=
  if singular c && bool_decide (c ∈ touched st)
  then (Rejected Uniqueness, st)
  else if behind c (highest st)
  then (Rejected Ordering, st)
  else (Accepted, mk ({[c]} ∪ touched st) (Some c)).

Fixpoint run (cs : list category) (st : state) : list verdict :=
  match cs with
  | [] => []
  | c :: cs' => let '(v, st') := call c st in v :: run cs' st'
  end.

End Reference.

(** What a caller observes of a guarded setter call on a builder: accepted,
    or rejected with the error kind that the message tells. *)
Definition classify (o : completion ref) : option verdict :=
  match o with
  | Normal _ => Some Accepted
  | Throw (Error m) =>
      if String.eqb m (uniError MyBuilder.fresh) then Some (Rejected Uniqueness)
      else if String.eqb m (ordError MyBuilder.fresh) then Some (Rejected Ordering)
      else None
  end.

(** ** The methods seen from their receiver

    The definitions from here to the end of this part serve the proofs:
    they express what the methods above do to the one builder they are
    called on, and are tied to the methods by the first lemmas of the next
    part. *)

(** What [this.getNulls()] returns when [this] holds [b]. *)
Definition nulls (b : builder) : string :=
  join " "
    (Str <$> List.filter (MyBuilder.null_or_empty (selectorObject b))
               (selectorObject.keys (selectorObject b))).

(** The guard of a setter: the error it throws, if any. *)
Definition guard (c : category) (b : builder) : option exn :=
  let o := selectorObject b in
  match c with
  | Element =>
      if negb (strict_eq (selectorObject.element o) Null)
      then Some (Error (uniError b))
      else if negb (String.eqb (nulls b) (checkElementString b))
      then Some (Error (ordError b)) else None
  | Id =>
      if negb (strict_eq (selectorObject.id o) Null)
      then Some (Error (uniError b))
      else if negb (includes (nulls b) (checkIdString b))
      then Some (Error (ordError b)) else None
  | Class =>
      if negb (includes (nulls b) (checkClassString b))
      then Some (Error (ordError b)) else None
  | Attr =>
      if negb (includes (nulls b) (checkAttrString b))
      then Some (Error (ordError b)) else None
  | PseudoClass =>
      if negb (includes (nulls b) (checkPseudoString b))
      then Some (Error (ordError b)) else None
  | PseudoElement =>
      if negb (strict_eq (selectorObject.pseudoElement o) Null)
      then Some (Error (uniError b))
      else if negb (includes (nulls b) (checkPseudoString b))
      then Some (Error (ordError b)) else None
  end.

(** The assignment of a setter whose guard passed. *)
Definition assign (c : call) (b : builder) : builder :=
  let o := selectorObject b in
  let v := c.2 in
  MyBuilder.set_selectorObject
    match c.1 with
    | Element => selectorObject.set_element (Str v) o
    | Id => selectorObject.set_id (Str ("#" +:+ v)) o
    | Class =>
        selectorObject.set_class
          (Str (tpl (selectorObject.class o) +:+ "." +:+ v)) o
    | Attr =>
        selectorObject.set_attr
          (Str (tpl (selectorObject.attr o) +:+ "[" +:+ v +:+ "]")) o
    | PseudoClass =>
        selectorObject.set_pseudoClass
          (Str (tpl (selectorObject.pseudoClass o) +:+ ":" +:+ v)) o
    | PseudoElement =>
        selectorObject.set_pseudoElement (Str ("::" +:+ v)) o
    end b.

(** What [stringify] returns when [this] holds [b]. *)
Definition text_of (b : builder) : string :=
  selectorText b +:+ join "" (selectorObject.values (selectorObject b)).

Ltac unfold_M :=
  unfold mbind, M_bind, mret, M_ret, MyBuilder.assign_field, get, update,
    throw, alloc, try in *.

(** The test that [getNulls] applies to a field. *)
Definition blank (v : value) : bool :=
  strict_eq v Null || strict_eq v (Str "").

Definition field (c : category) (o : selectorObject.t) : value :=
  match c with
  | Element => selectorObject.element o
  | Id => selectorObject.id o
  | Class => selectorObject.class o
  | Attr => selectorObject.attr o
  | PseudoClass => selectorObject.pseudoClass o
  | PseudoElement => selectorObject.pseudoElement o
  end.

Definition categories : list category :=
  [Element; Id; Class; Attr; PseudoClass; PseudoElement].

(** The categories strictly after [c]. *)
Definition later (c : category) : list category :=
  drop (S (category_index c)) categories.

(** A builder as the constructor made it, up to its two mutable fields. *)
Definition made (p : string) (o : selectorObject.t) : builder :=
  MyBuilder.set_selectorObject o (MyBuilder.set_selectorText p MyBuilder.fresh).

Definition uniE : exn := Error (uniError MyBuilder.fresh).
Definition ordE : exn := Error (ordError MyBuilder.fresh).

(** *** The state of a builder, as a function of the calls it accepted *)

(** The value of a singular field: [null] until its one fragment arrives. *)
Definition single (pre : string) (vs : list string) : value :=
  match vs with
  | [] => Null
  | v :: _ => Str (pre +:+ v)
  end.

Definition object_of (cs : list call) : selectorObject.t :=
  selectorObject.mk
    (single "" (fragments Element cs))
    (single "#" (fragments Id cs))
    (Str (wrap_all "." "" (fragments Class cs)))
    (Str (wrap_all "[" "]" (fragments Attr cs)))
    (Str (wrap_all ":" "" (fragments PseudoClass cs)))
    (single "::" (fragments PseudoElement cs)).

(** The builder that [new MyBuilder().selector(p)] becomes once it has
    accepted the calls [cs]. *)
Definition state_of (p : string) (cs : list call) : builder :=
  made p (object_of cs).

(** A singular category occurs at most once among accepted calls. *)
Definition well_ordered (cs : list call) : Prop :=
  ∀ c, singular c = true → length (fragments c cs) ≤ 1.

(** The completions of guarded calls [cs] on a builder that has accepted
    [hist]. *)
Fixpoint outcomes (r : ref) (p : string) (hist cs : list call)
    : list (completion ref) :=
  match cs with
  | [] => []
  | c :: cs' =>
      match guard c.1 (state_of p hist) with
      | Some e => Throw e :: outcomes r p hist cs'
      | None => Normal r :: outcomes r p (hist ++ [c]) cs'
      end
  end.

(** The reference state that matches a history of accepted calls. *)
Definition agrees (hist : list call) (st : Reference.state) : Prop :=
  (∀ c, c ∈ Reference.touched st ↔ touched c hist) ∧
  (∀ c, Reference.behind c (Reference.highest st) = true ↔
        ∃ d, before c d ∧ touched d hist).

(** ** The scenarios of the class comment *)

(** The attribute expression [href$=".png"] of the second scenario. *)
Definition href_png : string :=
  "href$=" +:+ String (Ascii.ascii_of_nat 34) ".png"
           +:+ String (Ascii.ascii_of_nat 34) EmptyString.

(** ** Vocabulary of the further properties *)

(** [new MyBuilder().selector(p)]: how [combine] makes its builder; with the
    empty text it leaves the builder as [new MyBuilder()] made it. *)
Definition start (p : string) : M ref :=
  r ← MyBuilder.constructor; MyBuilder.selector r p.

(** The text that one accepted setter call contributes to the selector. *)
Definition piece (c : call) : string :=
  match c.1 with
  | Element => c.2
  | Id => "#" +:+ c.2
  | Class => "." +:+ c.2
  | Attr => "[" +:+ c.2 +:+ "]"
  | PseudoClass => ":" +:+ c.2
  | PseudoElement => "::" +:+ c.2
  end.

(** The pieces of the calls [cs], in call order. *)
Fixpoint pieces (cs : list call) : string :=
  match cs with
  | [] => ""
  | c :: cs' => piece c +:+ pieces cs'
  end.

(** A call of category [d] may come after one of category [c]: [d] is a
    later category, or the same one when that may repeat. *)
Definition follows (c d : category) : Prop :=
  before c d ∨ (c = d ∧ singular c = false).

(** Every call of [cs] may come after all the calls before it. *)
Definition in_order (cs : list call) : Prop :=
  StronglySorted follows cs.*1.

(** The fields that the constructor sets and no method assigns. *)
Definition same_constants (b b' : builder) : Prop :=
  checkElementString b' = checkElementString b ∧
  checkIdString b' = checkIdString b ∧
  checkClassString b' = checkClassString b ∧
  checkAttrString b' = checkAttrString b ∧
  checkPseudoString b' = checkPseudoString b ∧
  uniError b' = uniError b ∧
  ordError b' = ordError b.

(** The property name of a category in [selectorObject]. *)
Definition key_of (c : category) : string :=
  match c with
  | Element => "element"
  | Id => "id"
  | Class => "class"
  | Attr => "attr"
  | PseudoClass => "pseudoClass"
  | PseudoElement => "pseudoElement"
  end.

(** After the accepted calls [cs], the field of category [c] is still
    [null] or empty: no call of that category was accepted, or it is the
    element and was set to the empty string. *)
Definition unset (cs : list call) (c : category) : Prop :=
  fragments c cs = [] ∨ (c = Element ∧ head (fragments c cs) = Some "").

#[global] Instance unset_dec cs c : Decision (unset cs c).
Proof. unfold unset. apply _. Defined.

(** * Part II: lemmas and theorems *)

(** ** The effect of one setter on its receiver *)

Section Receiver.

Context (h : heap) (r : ref) (b : builder).
Hypothesis Hr : h !! r = Some b.

Lemma stringify_at : MyBuilder.stringify r h = Some (h, Normal (text_of b)).
Proof using Hr.
  unfold MyBuilder.stringify, text_of.
  by repeat first [rewrite Hr | progress cbn beta iota | progress unfold_M].
Qed.

Lemma getNulls_at : MyBuilder.getNulls r h = Some (h, Normal (nulls b)).
Proof using Hr.
  unfold MyBuilder.getNulls, nulls.
  by repeat first [rewrite Hr | progress cbn beta iota | progress unfold_M].
Qed.

Lemma selector_at v :
  MyBuilder.selector r v h =
  Some (<[r := MyBuilder.set_selectorText (selectorText b +:+ v) b]> h,
        Normal r).
Proof using Hr.
  unfold MyBuilder.selector.
  by repeat first [rewrite Hr | progress cbn beta iota | progress unfold_M].
Qed.

(** A setter either throws what its guard says and writes nothing, or
    stores the assignment in the receiver and returns the receiver. *)
Lemma invoke_at c :
  invoke r c h =
  match guard c.1 b with
  | Some e => Some (h, Throw e)
  | None => Some (<[r := assign c b]> h, Normal r)
  end.
Proof using Hr.
  destruct c as [[] v]; unfold invoke, assign, guard; cbn [fst snd];
    cbn zeta;
    [ unfold MyBuilder.element | unfold MyBuilder.id
    | unfold MyBuilder.class | unfold MyBuilder.attr
    | unfold MyBuilder.pseudoClass | unfold MyBuilder.pseudoElement ];
    repeat first
      [ rewrite Hr | rewrite getNulls_at | progress cbn beta iota
      | progress unfold_M
      | match goal with
        | |- context [if ?x then _ else _] => destruct x
        end ];
    reflexivity.
Qed.

End Receiver.

(** ** The guards, read off the emptiness of the six fields *)

Lemma uniE_ne_ordE : uniE ≠ ordE.
Proof. discriminate. Qed.

Lemma elem_of_later c d : d ∈ later c ↔ before c d.
Proof.
  unfold before. destruct c, d; cbn; split; intros H;
    try lia; try (by repeat constructor);
    repeat match goal with
           | H : _ ∈ _ :: _ |- _ => apply elem_of_cons in H as [?|H]
           | H : _ ∈ [] |- _ => by apply elem_of_nil in H
           end; discriminate.
Qed.

Lemma null_or_empty_field c o :
  MyBuilder.null_or_empty o
    (nth (category_index c) (selectorObject.keys o) "") = blank (field c o).
Proof. by destruct c. Qed.

(** The text that [getNulls] joins, by the emptiness of the fields. *)
Lemma nulls_made p o :
  nulls (made p o) =
  join " "
    (Str <$> ((if blank (field Element o) then ["element"] else []) ++
              (if blank (field Id o) then ["id"] else []) ++
              (if blank (field Class o) then ["class"] else []) ++
              (if blank (field Attr o) then ["attr"] else []) ++
              (if blank (field PseudoClass o) then ["pseudoClass"] else []) ++
              (if blank (field PseudoElement o) then ["pseudoElement"] else []))).
Proof.
  unfold nulls, made. cbn [selectorObject MyBuilder.set_selectorObject].
  change (selectorObject.keys o) with
    ["element"; "id"; "class"; "attr"; "pseudoClass"; "pseudoElement"].
  cbn [List.filter].
  rewrite <- (null_or_empty_field Element), <- (null_or_empty_field Id),
    <- (null_or_empty_field Class), <- (null_or_empty_field Attr),
    <- (null_or_empty_field PseudoClass),
    <- (null_or_empty_field PseudoElement).
  cbn [nth category_index selectorObject.keys selectorObject.entries fmap
       list_fmap fst].
  repeat match goal with
         | |- context [MyBuilder.null_or_empty o ?k] =>
             destruct (MyBuilder.null_or_empty o k)
         end; reflexivity.
Qed.

(** Each guard throws the uniqueness error when its singular field is
    already set, the ordering error when a field of a later category is not
    empty, and nothing otherwise. *)
Lemma guard_made c p o :
  guard c (made p o) =
  if singular c && negb (strict_eq (field c o) Null) then Some uniE
  else if forallb (fun d => blank (field d o)) (later c) then None
  else Some ordE.
Proof.
  unfold guard. rewrite nulls_made. destruct o as [e i k a pc pe].
  cbn [selectorObject made MyBuilder.set_selectorObject].
  destruct c;
    cbn [singular andb field later category_index drop categories forallb
         selectorObject.element selectorObject.id selectorObject.class
         selectorObject.attr selectorObject.pseudoClass
         selectorObject.pseudoElement];
    try match goal with
        | |- context [negb (strict_eq ?v Null)] =>
            destruct v; cbn [strict_eq negb blank orb]; [|reflexivity]
        end;
    repeat match goal with
           | |- context [blank ?v] => destruct (blank v)
           end; reflexivity.
Qed.

(** ** The state of a builder, as a function of the calls it accepted *)

Lemma string_app_nil_r s : s +:+ "" = s.
Proof.
  induction s as [|a s IH]; [reflexivity|].
  change (String a s +:+ "") with (String a (s +:+ "")). by rewrite IH.
Qed.

Lemma string_app_assoc s t u : (s +:+ t) +:+ u = s +:+ t +:+ u.
Proof.
  induction s as [|a s IH]; [reflexivity|].
  change (String a (s +:+ t) +:+ u = String a (s +:+ t +:+ u)).
  change (String a ((s +:+ t) +:+ u) = String a (s +:+ t +:+ u)).
  by rewrite IH.
Qed.

Lemma wrap_all_snoc pre post vs v :
  wrap_all pre post (vs ++ [v]) = wrap_all pre post vs +:+ pre +:+ v +:+ post.
Proof.
  induction vs as [|w vs IH]; cbn [wrap_all app].
  - by rewrite string_app_nil_r.
  - by rewrite IH, !string_app_assoc.
Qed.

Lemma fragments_snoc c cs d v :
  fragments c (cs ++ [(d, v)]) =
  fragments c cs ++ (if decide (d = c) then [v] else []).
Proof.
  unfold fragments. rewrite filter_app, fmap_app. f_equal.
  rewrite filter_cons, filter_nil. cbn [fst]. by destruct (decide (d = c)).
Qed.

Lemma fragments_nil_iff c cs : fragments c cs = [] ↔ ¬ touched c cs.
Proof.
  unfold fragments, touched. induction cs as [|[d v] cs IH]; cbn [fmap list_fmap].
  - split; [intros _ H; by apply elem_of_nil in H | done].
  - rewrite filter_cons, not_elem_of_cons. cbn [fst].
    destruct (decide (d = c)) as [->|Hne]; cbn [fmap list_fmap].
    + split; [discriminate | intros [? _]; congruence].
    + rewrite IH. split; [intros ?; split; congruence | tauto].
Qed.

Lemma null_field_of c cs :
  singular c = true →
  strict_eq (field c (object_of cs)) Null = bool_decide (¬ touched c cs).
Proof.
  intros Hc. rewrite <- (bool_decide_ext _ _ (fragments_nil_iff c cs)).
  destruct c; try discriminate; cbn [field object_of selectorObject.element
    selectorObject.id selectorObject.pseudoElement];
    by destruct (fragments _ cs).
Qed.

Lemma blank_field_of c cs :
  c ≠ Element →
  blank (field c (object_of cs)) = bool_decide (¬ touched c cs).
Proof.
  intros Hc. rewrite <- (bool_decide_ext _ _ (fragments_nil_iff c cs)).
  destruct c; try done; cbn [field object_of selectorObject.id
    selectorObject.class selectorObject.attr selectorObject.pseudoClass
    selectorObject.pseudoElement];
    by destruct (fragments _ cs).
Qed.

(** The guards in terms of the calls accepted so far. *)
Lemma guard_state_of c p cs :
  guard c (state_of p cs) =
  if bool_decide (singular c = true ∧ touched c cs) then Some uniE
  else if bool_decide (∃ d, before c d ∧ touched d cs) then Some ordE
  else None.
Proof.
  unfold state_of. rewrite guard_made.
  assert (singular c && negb (strict_eq (field c (object_of cs)) Null) =
          bool_decide (singular c = true ∧ touched c cs)) as ->.
  { destruct (singular c) eqn:Hs; cbn [andb].
    - rewrite null_field_of by done.
      destruct (decide (touched c cs)) as [Ht|Ht].
      + rewrite bool_decide_eq_false_2 by tauto.
        by rewrite bool_decide_eq_true_2.
      + rewrite bool_decide_eq_true_2 by done.
        by rewrite bool_decide_eq_false_2 by tauto.
    - by rewrite bool_decide_eq_false_2 by (intros [? _]; done). }
  case_bool_decide; [done|].
  assert (forallb (λ d, blank (field d (object_of cs))) (later c) =
          negb (bool_decide (∃ d, before c d ∧ touched d cs))) as ->.
  { apply eq_true_iff_eq. rewrite forallb_forall, negb_true_iff,
      bool_decide_eq_false. split.
    - intros Hall (d & Hcd & Hd).
      assert (d ≠ Element) as Hne by (intros ->; unfold before in Hcd; cbn in Hcd; lia).
      specialize (Hall d). rewrite blank_field_of, bool_decide_eq_true in Hall by done.
      apply Hall; [|done]. apply list_elem_of_In, elem_of_later, Hcd.
    - intros Hno d Hd%list_elem_of_In%elem_of_later.
      assert (d ≠ Element) as Hne by (intros ->; unfold before in Hd; cbn in Hd; lia).
      rewrite blank_field_of, bool_decide_eq_true by done. naive_solver. }
  by case_bool_decide.
Qed.

(** An accepted call extends the history by itself. *)
Lemma assign_state_of c p cs :
  guard c.1 (state_of p cs) = None →
  assign c (state_of p cs) = state_of p (cs ++ [c]).
Proof.
  destruct c as [d v]. cbn [fst]. rewrite guard_state_of.
  case_bool_decide as Huni; [done|]. intros _.
  assert (singular d = true → fragments d cs = []) as Hnil.
  { intros Hd. apply fragments_nil_iff. tauto. }
  unfold state_of, assign, made, object_of.
  cbn [fst snd selectorObject MyBuilder.set_selectorObject].
  rewrite !fragments_snoc.
  destruct d; cbn [decide decide_rel category_eq_dec category_rec category_rect
                   sumbool_rec sumbool_rect];
    repeat match goal with
           | |- context [decide (?a = ?b)] => destruct (decide (a = b)); try done
           end;
    rewrite ?app_nil_r, ?Hnil by done;
    cbn [app single selectorObject.set_element selectorObject.set_id
         selectorObject.set_class selectorObject.set_attr
         selectorObject.set_pseudoClass selectorObject.set_pseudoElement
         selectorObject.element selectorObject.id selectorObject.class
         selectorObject.attr selectorObject.pseudoClass
         selectorObject.pseudoElement tpl];
    rewrite ?wrap_all_snoc, ?string_app_nil_r, ?Hnil by done;
    reflexivity.
Qed.

Lemma well_ordered_snoc c p cs :
  guard c.1 (state_of p cs) = None →
  well_ordered cs → well_ordered (cs ++ [c]).
Proof.
  destruct c as [d v]. cbn [fst]. rewrite guard_state_of.
  case_bool_decide as Huni; [done|]. intros _ Hwo c Hc.
  rewrite fragments_snoc. destruct (decide (d = c)) as [->|].
  - assert (fragments c cs = []) as -> by (apply fragments_nil_iff; tauto).
    cbn. lia.
  - rewrite app_nil_r. by apply Hwo.
Qed.

Lemma well_ordered_nil : well_ordered [].
Proof. intros c _. cbn. lia. Qed.

(** The text of a builder whose accepted calls are well ordered. *)
Lemma text_of_state_of p cs :
  well_ordered cs → text_of (state_of p cs) = render p cs.
Proof.
  intros Hwo. unfold text_of, render, state_of, made, object_of.
  cbn [selectorText selectorObject MyBuilder.set_selectorObject
       MyBuilder.set_selectorText selectorObject.values
       selectorObject.entries fmap list_fmap snd
       selectorObject.element selectorObject.id selectorObject.class
       selectorObject.attr selectorObject.pseudoClass
       selectorObject.pseudoElement join join_item].
  assert (∀ c pre, singular c = true →
            join_item (single pre (fragments c cs)) =
            wrap_all pre "" (fragments c cs)) as Hs.
  { intros c pre Hc. specialize (Hwo c Hc).
    destruct (fragments c cs) as [|v [|w vs]]; cbn in *; [done| |lia].
    by rewrite !string_app_nil_r. }
  rewrite !Hs by done. reflexivity.
Qed.

(** ** Running calls on a builder in the heap *)

Lemma invoke_dangling h r c : h !! r = None → invoke r c h = None.
Proof.
  intros Hr. destruct c as [[] v]; unfold invoke; cbn [fst snd];
    [ unfold MyBuilder.element | unfold MyBuilder.id
    | unfold MyBuilder.class | unfold MyBuilder.attr
    | unfold MyBuilder.pseudoClass | unfold MyBuilder.pseudoElement ];
    unfold MyBuilder.getNulls; unfold_M; by rewrite Hr.
Qed.

Lemma outcomes_well_ordered r p cs : ∀ hist,
  well_ordered hist →
  well_ordered (hist ++ accepted cs (outcomes r p hist cs)).
Proof.
  induction cs as [|c cs IH]; intros hist Hwo; cbn [outcomes accepted].
  - by rewrite app_nil_r.
  - destruct (guard c.1 (state_of p hist)) eqn:Hg; cbn [accepted].
    + by apply IH.
    + change (hist ++ c :: ?l) with (hist ++ [c] ++ l).
      rewrite app_assoc. apply IH. by eapply well_ordered_snoc.
Qed.

Lemma script_on r p cs : ∀ hist h,
  h !! r = Some (state_of p hist) →
  script (pair r <$> cs) h =
  Some (<[r := state_of p (hist ++ accepted cs (outcomes r p hist cs))]> h,
        Normal (outcomes r p hist cs)).
Proof.
  induction cs as [|c cs IH]; intros hist h Hr;
    cbn [fmap list_fmap script outcomes accepted].
  - rewrite app_nil_r, list_insert_id by done. reflexivity.
  - unfold mbind, M_bind, try. rewrite (invoke_at h r _ Hr).
    destruct (guard c.1 (state_of p hist)) eqn:Hg; cbn [accepted].
    + fold (@mbind M _). unfold mbind, M_bind. by rewrite (IH hist h Hr).
    + assert (r < length h) as Hlt by by eapply lookup_lt_Some.
      rewrite (assign_state_of _ _ _ Hg).
      rewrite (IH (hist ++ [c]) (<[r := state_of p (hist ++ [c])]> h))
        by by apply list_lookup_insert_eq.
      unfold mret, M_ret.
      by rewrite list_insert_insert_eq, <- app_assoc.
Qed.

Lemma chain_on r p cs : ∀ hist h h' r',
  h !! r = Some (state_of p hist) →
  well_ordered hist →
  chain r cs h = Some (h', Normal r') →
  r' = r ∧ h' = <[r := state_of p (hist ++ cs)]> h ∧
  well_ordered (hist ++ cs).
Proof.
  induction cs as [|c cs IH]; intros hist h h' r' Hr Hwo; cbn [chain].
  - unfold mret, M_ret. intros [= <- <-].
    by rewrite app_nil_r, list_insert_id.
  - unfold mbind, M_bind. rewrite (invoke_at h r _ Hr).
    destruct (guard c.1 (state_of p hist)) eqn:Hg; [done|].
    assert (r < length h) as Hlt by by eapply lookup_lt_Some.
    rewrite (assign_state_of _ _ _ Hg). intros Hc.
    apply (IH (hist ++ [c])) in Hc as (-> & -> & Hwo');
      [|by apply list_lookup_insert_eq|by eapply well_ordered_snoc].
    by rewrite list_insert_insert_eq, <- app_assoc in *.
Qed.

(** A new builder with prefix text [p] is in the state of the empty
    history. *)
Lemma start_on p h :
  (r ← MyBuilder.constructor; MyBuilder.selector r p) h =
  Some (h ++ [state_of p []], Normal (length h)).
Proof.
  unfold MyBuilder.constructor, alloc, mbind, M_bind.
  rewrite (selector_at (h ++ [MyBuilder.fresh]) (length h) MyBuilder.fresh)
    by by rewrite lookup_app_r, Nat.sub_diag.
  replace (length h) with (length h + 0) at 1 by lia.
  by rewrite insert_app_r.
Qed.

(** With the empty prefix text this is the builder of [new MyBuilder()]. *)
Lemma start_plain h :
  (r ← MyBuilder.constructor; MyBuilder.selector r "") h =
  MyBuilder.constructor h.
Proof. by rewrite start_on. Qed.

Lemma session_on p cs h :
  session p cs h =
  Some (h ++ [state_of p (accepted cs (outcomes (length h) p [] cs))],
        Normal (length h, outcomes (length h) p [] cs)).
Proof.
  unfold session. pose proof (start_on p h) as Hs.
  unfold mbind, M_bind in *.
  destruct (MyBuilder.constructor h) as [[h1 [r1|e]]|]; [|done..].
  rewrite Hs.
  rewrite (script_on (length h) p cs [] (h ++ [state_of p []]))
    by by rewrite lookup_app_r, Nat.sub_diag.
  unfold mret, M_ret. cbn [app].
  replace (length h) with (length h + 0) at 1 by lia.
  by rewrite insert_app_r.
Qed.

(** ** Frame: a setter writes its receiver and nothing else *)

Lemma invoke_frame h r c h' o :
  invoke r c h = Some (h', o) →
  length h' = length h ∧ ∀ r', r' ≠ r → h' !! r' = h !! r'.
Proof.
  destruct (h !! r) as [b|] eqn:Hr; [|by rewrite invoke_dangling].
  rewrite (invoke_at h r b Hr).
  destruct (guard c.1 b); intros [= <- <-]; [done|].
  split; [by rewrite length_insert|].
  intros r' Hne. by rewrite list_lookup_insert_ne.
Qed.

Lemma invoke_total h r c :
  r < length h → ∃ h' o, invoke r c h = Some (h', o).
Proof.
  intros [b Hr]%lookup_lt_is_Some. rewrite (invoke_at h r b Hr).
  destruct (guard c.1 b); eauto.
Qed.

(** Guarded calls on live builders always run to the end, and leave every
    builder that is not among their receivers as it was. *)
Lemma script_frame s : ∀ h,
  Forall (λ x, x.1 < length h) s →
  ∃ h' os, script s h = Some (h', Normal os) ∧
    length h' = length h ∧
    ∀ r', r' ∉ s.*1 → h' !! r' = h !! r'.
Proof.
  induction s as [|[r c] s IH]; intros h Hlive; cbn [script].
  - exists h, []. done.
  - apply Forall_cons in Hlive as [Hr Hlive]. cbn [fst] in Hr.
    destruct (invoke_total h r c Hr) as (h1 & o & Hi).
    destruct (invoke_frame _ _ _ _ _ Hi) as [Hlen Hfr].
    destruct (IH h1) as (h2 & os & Hs & Hlen2 & Hfr2).
    { by rewrite Hlen. }
    exists h2, (o :: os). unfold mbind, M_bind, try. rewrite Hi.
    fold (@mbind M _). unfold mbind, M_bind. rewrite Hs.
    split; [done|]. split; [congruence|].
    intros r' Hr'. cbn [fmap list_fmap fst] in Hr'.
    apply not_elem_of_cons in Hr' as [Hne Hr'].
    rewrite Hfr2 by done. by apply Hfr.
Qed.

(** ** The checks of the code against the reference model *)

Lemma touched_snoc d cs c : touched d (cs ++ [c]) ↔ touched d cs ∨ d = c.1.
Proof.
  unfold touched. rewrite fmap_app, elem_of_app. cbn [fmap list_fmap].
  by rewrite list_elem_of_singleton.
Qed.

Lemma agrees_init : agrees [] Reference.init.
Proof.
  split; intros c; cbn; unfold touched; cbn.
  - split; [set_solver | by intros ?%elem_of_nil].
  - split; [done | by intros (d & _ & ?%elem_of_nil)].
Qed.

(** One call: the guard of the code and the reference model decide alike,
    and an accepted call keeps the two states in agreement. *)
Lemma call_agrees c v p hist st :
  agrees hist st →
  match guard c (state_of p hist) with
  | Some e =>
      classify (Throw e) = Some (Reference.call c st).1 ∧
      (Reference.call c st).2 = st
  | None =>
      (Reference.call c st).1 = Accepted ∧
      agrees (hist ++ [(c, v)]) (Reference.call c st).2
  end.
Proof.
  intros [Ht Hp]. rewrite guard_state_of. unfold Reference.call.
  destruct (decide (singular c = true ∧ touched c hist)) as [[Hs Hc]|Hn].
  { rewrite bool_decide_eq_true_2 by done. rewrite Hs.
    by rewrite bool_decide_eq_true_2 by by apply Ht. }
  rewrite (bool_decide_eq_false_2 _ Hn).
  assert (singular c && bool_decide (c ∈ Reference.touched st) = false) as ->.
  { apply andb_false_iff. destruct (singular c); [right|by left].
    apply bool_decide_eq_false_2. rewrite Ht. tauto. }
  destruct (decide (∃ d, before c d ∧ touched d hist)) as [Hl|Hl].
  { rewrite bool_decide_eq_true_2 by done.
    by rewrite (proj2 (Hp c) Hl). }
  rewrite (bool_decide_eq_false_2 _ Hl).
  assert (Reference.behind c (Reference.highest st) = false) as ->.
  { apply not_true_iff_false. by rewrite Hp. }
  split; [done|]. cbn [snd].
  split; intros x; cbn [Reference.touched Reference.highest Reference.behind].
  - rewrite elem_of_union, elem_of_singleton, Ht, touched_snoc. cbn [fst].
    tauto.
  - rewrite bool_decide_eq_true. split.
    + intros Hx. exists c. rewrite touched_snoc. cbn [fst]. by split; [|right].
    + intros (d & Hxd & [Hd| ->]%touched_snoc); [|done].
      destruct (decide (before c d)) as [Hcd|Hcd].
      * destruct Hl. by exists d.
      * unfold before in *. lia.
Qed.

Lemma outcomes_reference r p cs : ∀ hist st,
  agrees hist st →
  classify <$> outcomes r p hist cs =
  Some <$> Reference.run cs.*1 st.
Proof.
  induction cs as [|[c v] cs IH]; intros hist st Hag; [done|].
  cbn [outcomes fmap list_fmap Reference.run fst].
  pose proof (call_agrees c v p hist st Hag) as Hstep.
  destruct (guard c (state_of p hist)) as [e|],
    (Reference.call c st) as [w st']; cbn [fst snd] in Hstep;
    destruct Hstep as [Hv Hst]; cbn [fmap list_fmap].
  - subst st'. rewrite Hv. f_equal. by apply IH.
  - subst w. cbn [classify]. f_equal. by apply IH.
Qed.

(** ** The scenarios of the class comment *)

Example scenario_id_classes :
  (b ← cssSelectorBuilder.id "main";
   b ← MyBuilder.class b "container";
   b ← MyBuilder.class b "editable";
   MyBuilder.stringify b) [] =
  Some ([state_of "" [(Id, "main"); (Class, "container"); (Class, "editable")]],
        Normal "#main.container.editable").
Proof. reflexivity. Qed.

Example scenario_attr_pseudo :
  (b ← cssSelectorBuilder.element "a";
   b ← MyBuilder.attr b href_png;
   b ← MyBuilder.pseudoClass b "focus";
   MyBuilder.stringify b) [] =
  Some ([state_of "" [(Element, "a"); (Attr, href_png); (PseudoClass, "focus")]],
        Normal ("a[" +:+ href_png +:+ "]:focus")).
Proof. reflexivity. Qed.

Example scenario_combined :
  (d ← cssSelectorBuilder.element "div";
   d ← MyBuilder.id d "main";
   d ← MyBuilder.class d "container";
   d ← MyBuilder.class d "draggable";
   t ← cssSelectorBuilder.element "table";
   t ← MyBuilder.id t "data";
   tr ← cssSelectorBuilder.element "tr";
   tr ← MyBuilder.pseudoClass tr "nth-of-type(even)";
   td ← cssSelectorBuilder.element "td";
   td ← MyBuilder.pseudoClass td "nth-of-type(even)";
   inner ← cssSelectorBuilder.combine tr " " td;
   middle ← cssSelectorBuilder.combine t "~" inner;
   outer ← cssSelectorBuilder.combine d "+" middle;
   MyBuilder.stringify outer) [] ≫= (λ x, Some x.2) =
  Some (Normal
    "div#main.container.draggable + table#data ~ tr:nth-of-type(even)   td:nth-of-type(even)").
Proof. reflexivity. Qed.

Example scenario_element_twice :
  (b ← cssSelectorBuilder.element "div"; MyBuilder.element b "div") [] =
  Some ([state_of "" [(Element, "div")]], Throw uniE).
Proof. reflexivity. Qed.

Example scenario_element_after_class :
  (b ← cssSelectorBuilder.class "a"; MyBuilder.element b "div") [] =
  Some ([state_of "" [(Class, "a")]], Throw ordE).
Proof. reflexivity. Qed.

(** ** Builders fresh from the facade *)

Lemma lookup_new (h : heap) b : (h ++ [b]) !! length h = Some b.
Proof. by rewrite lookup_app_r, Nat.sub_diag. Qed.

Lemma insert_new (h : heap) b b' : <[length h := b']> (h ++ [b]) = h ++ [b'].
Proof.
  replace (length h) with (length h + 0) by lia. by rewrite insert_app_r.
Qed.

Lemma facade_invoke c h :
  facade c h = (r ← MyBuilder.constructor; invoke r c) h.
Proof. by destruct c as [[] v]. Qed.

Lemma guard_fresh c : guard c MyBuilder.fresh = None.
Proof. by destruct c. Qed.

Lemma facade_on c h :
  facade c h = Some (h ++ [state_of "" [c]], Normal (length h)).
Proof.
  rewrite facade_invoke. unfold MyBuilder.constructor, alloc, mbind, M_bind.
  rewrite (invoke_at _ _ _ (lookup_new h MyBuilder.fresh)), guard_fresh.
  rewrite insert_new. do 4 f_equal.
  apply (assign_state_of c "" [] (guard_fresh c.1)).
Qed.

(** A setter call on a builder that has accepted [hist]. *)
Lemma invoke_on (h : heap) r p hist c :
  h !! r = Some (state_of p hist) →
  invoke r c h =
  match guard c.1 (state_of p hist) with
  | Some e => Some (h, Throw e)
  | None => Some (<[r := state_of p (hist ++ [c])]> h, Normal r)
  end.
Proof.
  intros Hr. rewrite (invoke_at _ _ _ Hr).
  destruct (guard c.1 (state_of p hist)) eqn:Hg; [done|].
  by rewrite assign_state_of.
Qed.

Lemma stringify_inv (h h' : heap) r s :
  MyBuilder.stringify r h = Some (h', Normal s) →
  ∃ b, h !! r = Some b ∧ h' = h ∧ s = text_of b.
Proof.
  destruct (h !! r) as [b|] eqn:Hr.
  - rewrite (stringify_at _ _ _ Hr). intros [= <- <-]. by exists b.
  - unfold MyBuilder.stringify. unfold_M. by rewrite Hr.
Qed.

Lemma text_of_start p : text_of (state_of p []) = p.
Proof.
  rewrite text_of_state_of by apply well_ordered_nil.
  unfold render. cbn. apply string_app_nil_r.
Qed.

(** [combine] allocates one builder, whose prefix text is the joined
    renderings of its operands, and touches nothing else. *)
Lemma combine_on (h : heap) A B c a b :
  h !! A = Some a → h !! B = Some b →
  cssSelectorBuilder.combine A c B h =
  Some (h ++ [state_of (text_of a +:+ " " +:+ c +:+ " " +:+ text_of b) []],
        Normal (length h)).
Proof.
  intros HA HB. unfold cssSelectorBuilder.combine, MyBuilder.constructor, alloc.
  unfold mbind, M_bind.
  rewrite (stringify_at (h ++ [MyBuilder.fresh]) A a)
    by by apply lookup_app_l_Some.
  rewrite (stringify_at (h ++ [MyBuilder.fresh]) B b)
    by by apply lookup_app_l_Some.
  rewrite (selector_at _ _ _ (lookup_new h MyBuilder.fresh)).
  by rewrite insert_new.
Qed.

(** ** Properties of the builder *)

(** C1. A builder made by [new MyBuilder().selector(p)] (the prefix text [p]
    is empty for a plain builder) on which the fluent chain of setter calls
    [cs] completed without an error renders as [render p cs]: the prefix
    text, then the element name, the id behind [#], every class behind [.],
    every attribute inside brackets, every pseudo-class behind [:] and the
    pseudo-element behind [::], the fragments of one category in call
    order.  Element, id and pseudo-element contribute at most one fragment
    each.  In particular [class('a').class('b')] renders [.a.b]. *)
Theorem stringify_renders_in_category_order
    (p : string) (cs : list call) (h0 h : heap) (r : ref) :
  (b ← MyBuilder.constructor; b ← MyBuilder.selector b p; chain b cs) h0
    = Some (h, Normal r) →
  MyBuilder.stringify r h = Some (h, Normal (render p cs)) ∧
  (∀ c, singular c = true → length (fragments c cs) ≤ 1) ∧
  (∃ h', (a ← cssSelectorBuilder.class "a";
          b ← MyBuilder.class a "b";
          MyBuilder.stringify b) h0 = Some (h', Normal ".a.b")).
Proof.
  intros Hrun. pose proof (start_on p h0) as Hs.
  unfold mbind, M_bind in Hrun, Hs.
  destruct (MyBuilder.constructor h0) as [[h1 [r1|e]]|]; [|done..].
  rewrite Hs in Hrun.
  apply (chain_on _ p cs []) in Hrun as (-> & -> & Hwo);
    [|apply lookup_new|apply well_ordered_nil].
  cbn [app] in *. rewrite insert_new.
  split; [|split; [done|]].
  - rewrite (stringify_at _ _ _ (lookup_new h0 _)).
    by rewrite text_of_state_of.
  - exists (h0 ++ [state_of "" [(Class, "a"); (Class, "b")]]).
    change (cssSelectorBuilder.class "a") with (facade (Class, "a")).
    change (MyBuilder.class ?a "b") with (invoke a (Class, "b")).
    unfold mbind, M_bind. rewrite facade_on.
    rewrite (invoke_on _ _ "" [(Class, "a")] _ (lookup_new h0 _)).
    change (guard _ _) with (@None exn). rewrite insert_new.
    by rewrite (stringify_at _ _ _ (lookup_new h0 _)).
Qed.

Lemma stringify_renders_in_category_order_witness :
  MyBuilder.stringify 0
    [state_of "" [(Id, "main"); (Class, "container"); (Class, "editable")]] =
  Some ([state_of "" [(Id, "main"); (Class, "container"); (Class, "editable")]],
        Normal (render "" [(Id, "main"); (Class, "container"); (Class, "editable")])).
Proof.
  apply (stringify_renders_in_category_order ""
           [(Id, "main"); (Class, "container"); (Class, "editable")] []).
  reflexivity.
Defined.

(** C2. Take any builder: made with any prefix text and driven through any
    sequence [cs] of guarded setter calls, of which it accepted
    [accepted cs os].  A further call to the setter of category [c] throws
    the ordering error exactly when a category strictly after [c] has
    accepted a call and the call is not a second call of a singular
    category; that one throws the uniqueness error instead.  In particular
    [class(x).id(y)] throws the ordering error, [id(x).class(y)] succeeds,
    and a class, attribute or pseudo-class call that succeeded can be
    repeated at once. *)
Theorem ordering_error_iff_later_category_touched
    (p : string) (cs : list call) (h0 : heap) :
  ∃ h r os,
    session p cs h0 = Some (h, Normal (r, os)) ∧
    (∀ c v,
       (∃ h', invoke r (c, v) h = Some (h', Throw ordE)) ↔
       (∃ d, before c d ∧ touched d (accepted cs os)) ∧
       ¬ (singular c = true ∧ touched c (accepted cs os))) ∧
    (∀ c v,
       (∃ h', invoke r (c, v) h = Some (h', Throw uniE)) ↔
       singular c = true ∧ touched c (accepted cs os)) ∧
    (∀ x y, ∃ h',
       (b ← cssSelectorBuilder.class x; MyBuilder.id b y) h0 =
       Some (h', Throw ordE)) ∧
    (∀ x y, ∃ h' b',
       (b ← cssSelectorBuilder.id x; MyBuilder.class b y) h0 =
       Some (h', Normal b')) ∧
    (∀ c v w h1 r1,
       singular c = false →
       invoke r (c, v) h = Some (h1, Normal r1) →
       ∃ h2, invoke r1 (c, w) h1 = Some (h2, Normal r1)).
Proof.
  eexists _, _, _. split; [apply session_on|].
  set (hist := accepted cs _).
  assert (∀ c, invoke (length h0) c (h0 ++ [state_of p hist]) =
    match guard c.1 (state_of p hist) with
    | Some e => Some (h0 ++ [state_of p hist], Throw e)
    | None => Some (h0 ++ [state_of p (hist ++ [c])], Normal (length h0))
    end) as Hinv.
  { intros c. rewrite (invoke_on _ _ p hist c (lookup_new h0 _)).
    by rewrite insert_new. }
  split; [|split; [|split; [|split]]].
  - intros c v. rewrite Hinv, guard_state_of. cbn [fst].
    repeat case_bool_decide;
      (split; [intros [h' Hx]; first [tauto | discriminate Hx]
              | intros Hx; first [tauto | by eexists]]).
  - intros c v. rewrite Hinv, guard_state_of. cbn [fst].
    repeat case_bool_decide;
      (split; [intros [h' Hx]; first [tauto | discriminate Hx]
              | intros Hx; first [tauto | by eexists]]).
  - intros x y. eexists.
    change (cssSelectorBuilder.class x) with (facade (Class, x)).
    change (MyBuilder.id ?a y) with (invoke a (Id, y)).
    unfold mbind, M_bind. rewrite facade_on.
    by rewrite (invoke_on _ _ "" [(Class, x)] _ (lookup_new h0 _)).
  - intros x y. eexists _, _.
    change (cssSelectorBuilder.id x) with (facade (Id, x)).
    change (MyBuilder.class ?a y) with (invoke a (Class, y)).
    unfold mbind, M_bind. rewrite facade_on.
    by rewrite (invoke_on _ _ "" [(Id, x)] _ (lookup_new h0 _)).
  - intros c v w h1 r1 Hc. rewrite Hinv, guard_state_of. cbn [fst].
    rewrite bool_decide_eq_false_2 by (intros [? _]; congruence).
    case_bool_decide as Hl; [done|]. intros [= <- <-].
    rewrite (invoke_on _ _ p (hist ++ [(c, v)]) _ (lookup_new h0 _)).
    rewrite guard_state_of. cbn [fst].
    rewrite bool_decide_eq_false_2 by (intros [? _]; congruence).
    rewrite bool_decide_eq_false_2; [by eexists|].
    intros (d & Hcd & [Hd| ->]%touched_snoc).
    + apply Hl. by exists d.
    + unfold before in Hcd. cbn [fst] in Hcd. lia.
Qed.

(** C3. On any builder, once the setter of a singular category (element, id
    or pseudo-element) has been accepted, every further call to it throws
    the uniqueness error, whatever other calls the builder has seen,
    also when a later category has been touched since; the builder is left
    as it was. *)
Theorem second_singular_call_throws_uniqueness
    (p : string) (cs : list call) (h0 : heap) :
  ∃ h r os,
    session p cs h0 = Some (h, Normal (r, os)) ∧
    uniE ≠ ordE ∧
    ∀ c v,
      singular c = true → touched c (accepted cs os) →
      invoke r (c, v) h = Some (h, Throw uniE).
Proof.
  eexists _, _, _. split; [apply session_on|].
  split; [apply uniE_ne_ordE|]. intros c v Hs Ht.
  rewrite (invoke_on _ _ p _ _ (lookup_new h0 _)), guard_state_of. cbn [fst].
  by rewrite bool_decide_eq_true_2.
Qed.

(** C4. For builders [A], [B], [C] and any combinator text [c] (the four
    symbols among them), [combine(A, c, B).stringify()] is [A.stringify()],
    a space, [c], a space, [B.stringify()]; hence
    [combine(combine(A,'+',B),'~',C).stringify()] is the three renderings
    joined by [ + ] and [ ~ ], and the space combinator puts three spaces
    between the two renderings. *)
Theorem combine_joins_renderings
    (h : heap) (A B C : ref) (c sA sB sC : string) :
  MyBuilder.stringify A h = Some (h, Normal sA) →
  MyBuilder.stringify B h = Some (h, Normal sB) →
  MyBuilder.stringify C h = Some (h, Normal sC) →
  (∃ h', (r ← cssSelectorBuilder.combine A c B; MyBuilder.stringify r) h =
         Some (h', Normal (sA +:+ " " +:+ c +:+ " " +:+ sB))) ∧
  (∃ h', (ab ← cssSelectorBuilder.combine A "+" B;
          r ← cssSelectorBuilder.combine ab "~" C;
          MyBuilder.stringify r) h =
         Some (h', Normal (sA +:+ " + " +:+ sB +:+ " ~ " +:+ sC))) ∧
  (∃ h', (r ← cssSelectorBuilder.combine A " " B; MyBuilder.stringify r) h =
         Some (h', Normal (sA +:+ "   " +:+ sB))).
Proof.
  intros (a & Ha & _ & ->)%stringify_inv (b & Hb & _ & ->)%stringify_inv
         (k & Hk & _ & ->)%stringify_inv.
  assert (∀ x, ∃ h',
    (r ← cssSelectorBuilder.combine A x B; MyBuilder.stringify r) h =
    Some (h', Normal (text_of a +:+ " " +:+ x +:+ " " +:+ text_of b))) as Hone.
  { intros x. eexists. unfold mbind, M_bind.
    rewrite (combine_on h A B x a b Ha Hb).
    rewrite (stringify_at _ _ _ (lookup_new h _)).
    by rewrite text_of_start. }
  split; [apply Hone|]. split; [|apply (Hone " ")].
  eexists. unfold mbind, M_bind.
  rewrite (combine_on h A B "+" a b Ha Hb).
  rewrite (combine_on _ (length h) C "~" _ k (lookup_new h _))
    by by apply lookup_app_l_Some.
  rewrite (stringify_at _ _ _ (lookup_new _ _)).
  by rewrite !text_of_start, !string_app_assoc.
Qed.

Lemma combine_joins_renderings_witness :
  ∃ h', (r ← cssSelectorBuilder.combine 0 ">" 1; MyBuilder.stringify r)
          [state_of "" [(Element, "ul")]; state_of "" [(Element, "li")]] =
        Some (h', Normal ("ul" +:+ " " +:+ ">" +:+ " " +:+ "li")).
Proof.
  apply (combine_joins_renderings
           [state_of "" [(Element, "ul")]; state_of "" [(Element, "li")]]
           0 1 1 ">" "ul" "li" "li"); reflexivity.
Defined.

(** C5. A setter call that throws leaves the heap, and so the builder,
    exactly as it was: nothing is written before the check fails.  Whatever
    runs after the caught call runs as if the call had not been made. *)
Theorem rejected_call_changes_nothing
    (h h' : heap) (r : ref) (c : call) (e : exn) :
  invoke r c h = Some (h', Throw e) →
  h' = h ∧ ∀ (A : Type) (m : M A), (try (invoke r c);; m) h = m h.
Proof.
  intros Hi.
  assert (h' = h) as ->.
  { destruct (h !! r) as [b|] eqn:Hr; [|by rewrite invoke_dangling in Hi].
    rewrite (invoke_at _ _ _ Hr) in Hi. by destruct (guard c.1 b); simplify_eq. }
  split; [done|]. intros A m. unfold mbind, M_bind, try. by rewrite Hi.
Qed.

Lemma rejected_call_changes_nothing_witness :
  [state_of "" [(Class, "a")]] = [state_of "" [(Class, "a")]] ∧
  ∀ (A : Type) (m : M A),
    (try (invoke 0 (Element, "div"));; m) [state_of "" [(Class, "a")]] =
    m [state_of "" [(Class, "a")]].
Proof.
  apply (rejected_call_changes_nothing _ _ 0 (Element, "div") ordE).
  reflexivity.
Defined.

(** C6. The checks of the code, which look for fixed texts in the joined
    names of the empty fields, decide every call as the reference model
    does, which keeps the set of touched categories and a pointer to the
    highest of them: on a new builder, any sequence of guarded setter
    calls, whatever their arguments (the empty string included), is
    accepted and rejected call by call alike, with the same kind of error. *)
Theorem checks_agree_with_reference_model
    (p : string) (cs : list call) (h0 : heap) :
  ∃ h r os,
    session p cs h0 = Some (h, Normal (r, os)) ∧
    classify <$> os = Some <$> Reference.run cs.*1 Reference.init.
Proof.
  eexists _, _, _. split; [apply session_on|].
  apply outcomes_reference, agrees_init.
Qed.

(** C7. Every setter of the facade allocates a new builder, with empty
    prefix text and empty category fields, calls the setter of the same
    name on it once and returns it: the new builder differs from a fresh
    one in that one field only.  The facade's [stringify()] renders a new
    builder, and returns the empty string. *)
Theorem facade_builds_on_fresh_builder (v : string) (h : heap) :
  let fresh_with o := MyBuilder.set_selectorObject o MyBuilder.fresh in
  selectorText MyBuilder.fresh = "" ∧
  selectorObject MyBuilder.fresh =
    selectorObject.mk Null Null (Str "") (Str "") (Str "") Null ∧
  (∀ c, facade (c, v) h = (r ← MyBuilder.constructor; invoke r (c, v)) h) ∧
  cssSelectorBuilder.element v h =
    Some (h ++ [fresh_with
                  (selectorObject.mk (Str v) Null (Str "") (Str "") (Str "") Null)],
          Normal (length h)) ∧
  cssSelectorBuilder.id v h =
    Some (h ++ [fresh_with
                  (selectorObject.mk Null (Str ("#" +:+ v)) (Str "") (Str "")
                     (Str "") Null)],
          Normal (length h)) ∧
  cssSelectorBuilder.class v h =
    Some (h ++ [fresh_with
                  (selectorObject.mk Null Null (Str ("." +:+ v)) (Str "")
                     (Str "") Null)],
          Normal (length h)) ∧
  cssSelectorBuilder.attr v h =
    Some (h ++ [fresh_with
                  (selectorObject.mk Null Null (Str "")
                     (Str ("[" +:+ v +:+ "]")) (Str "") Null)],
          Normal (length h)) ∧
  cssSelectorBuilder.pseudoClass v h =
    Some (h ++ [fresh_with
                  (selectorObject.mk Null Null (Str "") (Str "")
                     (Str (":" +:+ v)) Null)],
          Normal (length h)) ∧
  cssSelectorBuilder.pseudoElement v h =
    Some (h ++ [fresh_with
                  (selectorObject.mk Null Null (Str "") (Str "") (Str "")
                     (Str ("::" +:+ v)))],
          Normal (length h)) ∧
  cssSelectorBuilder.stringify h = Some (h ++ [MyBuilder.fresh], Normal "").
Proof.
  assert (∀ c, facade (c, v) h =
    Some (h ++ [assign (c, v) MyBuilder.fresh], Normal (length h))) as Hf.
  { intros c. rewrite facade_invoke.
    unfold MyBuilder.constructor, alloc, mbind, M_bind.
    rewrite (invoke_at _ _ _ (lookup_new h MyBuilder.fresh)), guard_fresh.
    by rewrite insert_new. }
  cbn zeta. split; [done|]. split; [done|].
  split; [intros c; apply facade_invoke|].
  split; [apply (Hf Element)|]. split; [apply (Hf Id)|].
  split; [apply (Hf Class)|]. split; [apply (Hf Attr)|].
  split; [apply (Hf PseudoClass)|]. split; [apply (Hf PseudoElement)|].
  unfold cssSelectorBuilder.stringify, MyBuilder.constructor, alloc.
  unfold mbind, M_bind.
  by rewrite (stringify_at _ _ _ (lookup_new h MyBuilder.fresh)).
Qed.

(** C8. Two builders that come from two facade calls are two objects: when
    the second call runs on any later heap (the heap never shrinks), it
    returns another reference, and no sequence of setter calls on either
    builder changes the state of the other, or what its [stringify()]
    returns. *)
Theorem builders_share_no_state
    (c1 c2 : call) (h h1 h' h2 : heap) (b1 b2 : ref) :
  facade c1 h = Some (h1, Normal b1) →
  length h1 ≤ length h' →
  facade c2 h' = Some (h2, Normal b2) →
  b1 ≠ b2 ∧
  (∀ cs, ∃ h3 os s,
     script (pair b1 <$> cs) h2 = Some (h3, Normal os) ∧
     h3 !! b2 = h2 !! b2 ∧
     MyBuilder.stringify b2 h2 = Some (h2, Normal s) ∧
     MyBuilder.stringify b2 h3 = Some (h3, Normal s)) ∧
  (∀ cs, ∃ h3 os s,
     script (pair b2 <$> cs) h2 = Some (h3, Normal os) ∧
     h3 !! b1 = h2 !! b1 ∧
     MyBuilder.stringify b1 h2 = Some (h2, Normal s) ∧
     MyBuilder.stringify b1 h3 = Some (h3, Normal s)).
Proof.
  rewrite !facade_on. intros [= <- <-] Hlen [= <- <-].
  rewrite length_app in Hlen. cbn [length] in Hlen.
  assert (length h < length (h' ++ [state_of "" [c2]])) as Hb1
    by (rewrite length_app; cbn [length]; lia).
  assert (length h' < length (h' ++ [state_of "" [c2]])) as Hb2
    by (rewrite length_app; cbn [length]; lia).
  assert (∀ (x y : ref) cs, x ≠ y →
    x < length (h' ++ [state_of "" [c2]]) →
    y < length (h' ++ [state_of "" [c2]]) →
    ∃ h3 os s,
      script (pair x <$> cs) (h' ++ [state_of "" [c2]]) = Some (h3, Normal os) ∧
      h3 !! y = (h' ++ [state_of "" [c2]]) !! y ∧
      MyBuilder.stringify y (h' ++ [state_of "" [c2]]) =
        Some (h' ++ [state_of "" [c2]], Normal s) ∧
      MyBuilder.stringify y h3 = Some (h3, Normal s)) as Hframe.
  { intros x y cs Hxy Hx [b Hy]%lookup_lt_is_Some.
    destruct (script_frame (pair x <$> cs) (h' ++ [state_of "" [c2]]))
      as (h3 & os & Hs & _ & Hfr).
    { apply Forall_fmap, Forall_forall. by intros. }
    exists h3, os, (text_of b).
    assert (h3 !! y = Some b) as Hy3.
    { rewrite Hfr; [done|]. rewrite <- list_fmap_compose.
      intros (? & ? & _)%list_elem_of_fmap. by simplify_eq/=. }
    split; [done|]. split; [congruence|].
    by rewrite !(stringify_at _ _ b). }
  split; [lia|]. split; intros cs; apply Hframe; done || lia.
Qed.

Lemma builders_share_no_state_witness :
  0 ≠ 1 ∧
  (∀ cs, ∃ h3 os s,
     script (pair 0 <$> cs)
       [state_of "" [(Element, "div")]; state_of "" [(Id, "main")]] =
       Some (h3, Normal os) ∧
     h3 !! 1 = [state_of "" [(Element, "div")]; state_of "" [(Id, "main")]] !! 1 ∧
     MyBuilder.stringify 1
       [state_of "" [(Element, "div")]; state_of "" [(Id, "main")]] =
       Some ([state_of "" [(Element, "div")]; state_of "" [(Id, "main")]],
             Normal s) ∧
     MyBuilder.stringify 1 h3 = Some (h3, Normal s)).
Proof.
  pose proof (builders_share_no_state (Element, "div") (Id, "main")
                [] [state_of "" [(Element, "div")]]
                [state_of "" [(Element, "div")]]
                [state_of "" [(Element, "div")]; state_of "" [(Id, "main")]]
                0 1) as H.
  destruct H as (Hne & Hfr & _); [reflexivity | simpl; lia | reflexivity |].
  exact (conj Hne Hfr).
Defined.

(** C9. [combine(b1, c, b2)] stores the joined renderings that [b1] and
    [b2] have at the call in the prefix text of a new builder.  Setter
    calls made on [b1] or [b2] afterwards, accepted or not, do not change
    what the combined builder's [stringify()] returns. *)
Theorem combine_keeps_snapshot
    (h : heap) (b1 b2 : ref) (c s1 s2 : string) :
  MyBuilder.stringify b1 h = Some (h, Normal s1) →
  MyBuilder.stringify b2 h = Some (h, Normal s2) →
  ∃ h1 r,
    cssSelectorBuilder.combine b1 c b2 h = Some (h1, Normal r) ∧
    selectorText <$> h1 !! r = Some (s1 +:+ " " +:+ c +:+ " " +:+ s2) ∧
    ∀ s, Forall (λ x, x.1 = b1 ∨ x.1 = b2) s →
      ∃ h2 os,
        script s h1 = Some (h2, Normal os) ∧
        MyBuilder.stringify r h2 =
          Some (h2, Normal (s1 +:+ " " +:+ c +:+ " " +:+ s2)).
Proof.
  intros (x & Hx & _ & ->)%stringify_inv (y & Hy & _ & ->)%stringify_inv.
  eexists _, _. split; [by apply combine_on|].
  rewrite lookup_new. split; [done|]. intros s Hs.
  apply lookup_lt_Some in Hx, Hy.
  destruct (script_frame s
              (h ++ [state_of (text_of x +:+ " " +:+ c +:+ " " +:+ text_of y) []]))
    as (h2 & os & Hrun & _ & Hfr).
  { eapply Forall_impl; [exact Hs|]. intros [t k]. cbn [fst].
    rewrite length_app. cbn [length]. lia. }
  exists h2, os. split; [done|].
  rewrite (stringify_at h2 (length h) (state_of (text_of x +:+ " " +:+ c +:+ " " +:+ text_of y) [])).
  - by rewrite text_of_start.
  - rewrite Hfr; [apply lookup_new|].
    intros (t & Heq & Ht)%list_elem_of_fmap.
    rewrite Forall_forall in Hs. specialize (Hs t Ht). lia.
Qed.

Lemma combine_keeps_snapshot_witness :
  ∃ h1 r,
    cssSelectorBuilder.combine 0 ">" 1
      [state_of "" [(Element, "ul")]; state_of "" [(Element, "li")]] =
      Some (h1, Normal r) ∧
    selectorText <$> h1 !! r = Some ("ul" +:+ " " +:+ ">" +:+ " " +:+ "li") ∧
    ∀ s, Forall (λ x, x.1 = 0 ∨ x.1 = 1) s →
      ∃ h2 os,
        script s h1 = Some (h2, Normal os) ∧
        MyBuilder.stringify r h2 =
          Some (h2, Normal ("ul" +:+ " " +:+ ">" +:+ " " +:+ "li")).
Proof.
  apply (combine_keeps_snapshot
           [state_of "" [(Element, "ul")]; state_of "" [(Element, "li")]]
           0 1 ">" "ul" "li"); reflexivity.
Defined.

(** ** Rectangle *)

(** C10. [new Rectangle(width, height)] has the given width and height, and
    its [getArea()] returns their product. *)
Theorem rectangle_fields_and_area (width height : float) :
  Rectangle.width (Rectangle.new width height) = width ∧
  Rectangle.height (Rectangle.new width height) = height ∧
  Rectangle.getArea (Rectangle.new width height) = (width * height)%float.
Proof. done. Qed.

Example rectangle_10_20 :
  Rectangle.getArea (Rectangle.new 10 20) = 200%float.
Proof. reflexivity. Qed.

(** ** Chains of calls and the order of categories *)

Lemma guard_none_iff c p hist :
  guard c (state_of p hist) = None ↔ Forall (λ d, follows d c) hist.*1.
Proof.
  rewrite guard_state_of, Forall_forall. unfold follows, before, touched. split.
  - case_bool_decide as Hu; [done|]. case_bool_decide as Hl; [done|].
    intros _ d Hd.
    destruct (decide (category_index d < category_index c)); [by left|].
    destruct (decide (d = c)) as [->|Hne].
    + right. split; [done|]. destruct (singular c); [|done].
      exfalso. naive_solver.
    + exfalso. apply Hl. exists d. split; [|done].
      assert (category_index d ≠ category_index c) by (by destruct d, c).
      lia.
  - intros Hall. rewrite bool_decide_eq_false_2.
    + rewrite bool_decide_eq_false_2; [done|].
      intros (d & Hcd & Hd). destruct (Hall d Hd) as [?|[-> _]]; lia.
    + intros [Hs Hc]. destruct (Hall c Hc) as [?|[_ ?]]; [lia|congruence].
Qed.

Lemma in_order_snoc hist c :
  in_order (hist ++ [c]) ↔
  in_order hist ∧ Forall (λ d, follows d c.1) hist.*1.
Proof.
  unfold in_order. rewrite fmap_app, StronglySorted_app. cbn [fmap list_fmap].
  split.
  - intros (Hall & Hs & _). split; [done|]. apply Forall_forall.
    intros d Hd. apply (Hall d c.1 Hd). by apply list_elem_of_singleton.
  - intros [Hs Hall]. split; [|split; [done|by repeat constructor]].
    intros d x Hd ->%list_elem_of_singleton.
    rewrite Forall_forall in Hall. by apply Hall.
Qed.

(** A chain on a builder that has accepted [hist] runs to its end exactly
    when the calls may follow [hist] and one another. *)
Lemma chain_accepts r p cs : ∀ hist (h : heap),
  h !! r = Some (state_of p hist) →
  in_order hist →
  (∃ h' r', chain r cs h = Some (h', Normal r')) ↔ in_order (hist ++ cs).
Proof.
  induction cs as [|c cs IH]; intros hist h Hr Hin; cbn [chain].
  - rewrite app_nil_r. split; [done|]. intros _. by eexists _, _.
  - unfold mbind, M_bind. rewrite (invoke_on _ _ _ _ c Hr).
    change (hist ++ c :: cs) with (hist ++ [c] ++ cs). rewrite app_assoc.
    destruct (guard c.1 (state_of p hist)) eqn:Hg.
    + split; [by intros (? & ? & ?)|]. intros Hall. exfalso.
      unfold in_order in Hall. rewrite fmap_app in Hall.
      apply StronglySorted_app_1_l in Hall.
      apply in_order_snoc in Hall as [_ Hall].
      apply (guard_none_iff c.1 p hist) in Hall. congruence.
    + apply IH.
      * apply list_lookup_insert_eq. by eapply lookup_lt_Some.
      * apply in_order_snoc. split; [done|]. by apply guard_none_iff in Hg.
Qed.


Lemma fragments_cons d c cs :
  fragments d (c :: cs) =
  (if decide (c.1 = d) then [c.2] else []) ++ fragments d cs.
Proof.
  unfold fragments. rewrite filter_cons. by destruct (decide (c.1 = d)).
Qed.

Lemma render_nil p : render p [] = p.
Proof. unfold render. cbn. apply string_app_nil_r. Qed.

(** A call that all later calls may follow puts its piece right behind the
    prefix text. *)
Lemma render_cons_first p c cs :
  Forall (follows c.1) cs.*1 →
  render p (c :: cs) = render (p +:+ piece c) cs.
Proof.
  destruct c as [k v]. cbn [fst]. intros Hall.
  assert (∀ d, before d k → fragments d cs = []) as Hnil.
  { intros d Hd. apply fragments_nil_iff. intros Ht.
    rewrite Forall_forall in Hall. unfold before in *.
    destruct (Hall d Ht) as [?|[-> _]]; unfold before in *; lia. }
  unfold render, piece. rewrite !fragments_cons. cbn [fst snd].
  destruct k;
    repeat match goal with
           | |- context [decide (?a = ?b)] => destruct (decide (a = b)); try done
           end;
    rewrite ?Hnil by (unfold before; cbn; lia);
    cbn [app wrap_all]; repeat rewrite string_app_assoc; reflexivity.
Qed.

Lemma render_in_order cs : ∀ p,
  in_order cs → render p cs = p +:+ pieces cs.
Proof.
  induction cs as [|c cs IH]; intros p Hin; cbn [pieces].
  - by rewrite render_nil, string_app_nil_r.
  - apply StronglySorted_cons in Hin as [Hall Hin].
    by rewrite render_cons_first, IH, string_app_assoc.
Qed.

(** A chain that throws stops at its first rejected call, with the heap as
    the calls before it left it. *)
Lemma chain_throws r p cs : ∀ hist (h h' : heap) e,
  h !! r = Some (state_of p hist) →
  chain r cs h = Some (h', Throw e) →
  ∃ pre c rest,
    cs = pre ++ c :: rest ∧
    chain r pre h = Some (h', Normal r) ∧
    h' = <[r := state_of p (hist ++ pre)]> h ∧
    guard c.1 (state_of p (hist ++ pre)) = Some e.
Proof.
  induction cs as [|c cs IH]; intros hist h h' e Hr; cbn [chain]; [done|].
  unfold mbind, M_bind. rewrite (invoke_on _ _ _ _ c Hr).
  destruct (guard c.1 (state_of p hist)) eqn:Hg.
  - intros [= <- <-]. exists [], c, cs.
    rewrite app_nil_r, list_insert_id by done. done.
  - intros Hc.
    assert (r < length h) as Hlt by by eapply lookup_lt_Some.
    apply (IH (hist ++ [c])) in Hc as (pre & c' & rest & -> & Hpre & -> & Hg');
      [|by apply list_lookup_insert_eq].
    exists (c :: pre), c', rest. cbn [chain app].
    unfold mbind, M_bind. rewrite (invoke_on _ _ _ _ c Hr), Hg, Hpre.
    by rewrite list_insert_insert_eq, <- !app_assoc in *.
Qed.

Lemma start_chain_on p cs (h0 h : heap) r :
  (b ← start p; chain b cs) h0 = Some (h, Normal r) →
  r = length h0 ∧ h = h0 ++ [state_of p cs] ∧ in_order cs ∧ well_ordered cs.
Proof.
  unfold mbind at 1, M_bind at 1. unfold start. rewrite start_on. intros Hc.
  pose proof (chain_accepts (length h0) p cs [] _ (lookup_new h0 _))
    as Hacc.
  apply (chain_on _ p cs []) in Hc as Hc'; [|apply lookup_new|apply well_ordered_nil].
  destruct Hc' as (-> & -> & Hwo). rewrite insert_new. cbn [app] in *.
  repeat split; [|done]. apply Hacc; [by constructor|by eexists _, _].
Qed.

(** ** Further properties of the builder *)

(** X1. Every setter that completes, and [selector], returns the very
    builder it was called on, and so does a whole fluent chain: the chain
    builds one object. *)
Theorem setters_return_their_receiver (h : heap) (r : ref) :
  (∀ c h' r', invoke r c h = Some (h', Normal r') → r' = r) ∧
  (∀ v h' r', MyBuilder.selector r v h = Some (h', Normal r') → r' = r) ∧
  (∀ cs h' r', chain r cs h = Some (h', Normal r') → r' = r).
Proof.
  assert (∀ (g : heap) c g' r', invoke r c g = Some (g', Normal r') → r' = r)
    as Hinv.
  { intros g c g' r'.
    destruct (g !! r) as [b|] eqn:Hr; [|by rewrite invoke_dangling].
    rewrite (invoke_at _ _ _ Hr). by destruct (guard c.1 b); intros [=]. }
  split; [apply Hinv|]. split.
  - intros v h' r'. destruct (h !! r) as [b|] eqn:Hr.
    + rewrite (selector_at _ _ _ Hr). by intros [=].
    + unfold MyBuilder.selector. unfold_M. by rewrite Hr.
  - intros cs. revert h. induction cs as [|c cs IH]; intros h h' r'; cbn [chain].
    + unfold mret, M_ret. by intros [=].
    + unfold mbind, M_bind.
      destruct (invoke r c h) as [[h1 [r1|e]]|] eqn:Hi; [|done..].
      apply Hinv in Hi as ->. apply IH.
Qed.

(** X2. A fluent chain of setter calls on a new builder runs to its end
    without an error exactly when the categories of its calls never step
    back in the order element, id, class, attribute, pseudo-class,
    pseudo-element, and element, id and pseudo-element occur at most once. *)
Theorem chain_completes_iff_in_order (p : string) (cs : list call) (h0 : heap) :
  (∃ h r, (b ← start p; chain b cs) h0 = Some (h, Normal r)) ↔ in_order cs.
Proof.
  unfold mbind at 1, M_bind at 1. unfold start. rewrite start_on.
  apply (chain_accepts (length h0) p cs [] _ (lookup_new h0 _)).
  by constructor.
Qed.

(** X3. When a fluent chain on a new builder completes, [stringify()]
    returns the prefix text followed by the pieces of the calls in the
    order in which they were made. *)
Theorem stringify_concatenates_in_call_order
    (p : string) (cs : list call) (h0 h : heap) (r : ref) :
  (b ← start p; chain b cs) h0 = Some (h, Normal r) →
  MyBuilder.stringify r h = Some (h, Normal (p +:+ pieces cs)).
Proof.
  intros (-> & -> & Hin & Hwo)%start_chain_on.
  rewrite (stringify_at _ _ _ (lookup_new h0 _)).
  by rewrite text_of_state_of, render_in_order.
Qed.

Lemma stringify_concatenates_in_call_order_witness :
  MyBuilder.stringify 0
    [state_of "" [(Element, "a"); (Attr, "href"); (PseudoClass, "focus")]] =
  Some ([state_of "" [(Element, "a"); (Attr, "href"); (PseudoClass, "focus")]],
        Normal ("" +:+ pieces [(Element, "a"); (Attr, "href");
                               (PseudoClass, "focus")])).
Proof.
  apply (stringify_concatenates_in_call_order ""
           [(Element, "a"); (Attr, "href"); (PseudoClass, "focus")] []).
  reflexivity.
Defined.

(** X4. When a fluent chain on a new builder throws, the calls before the
    throwing one have all been made: the builder is in the state that the
    chain of those calls alone leaves, it renders them, and the error is
    the one that the throwing call meets in that state. *)
Theorem failed_chain_keeps_accepted_calls
    (p : string) (cs : list call) (h0 h : heap) (e : exn) :
  (b ← start p; chain b cs) h0 = Some (h, Throw e) →
  ∃ pre c rest,
    cs = pre ++ c :: rest ∧
    (b ← start p; chain b pre) h0 = Some (h, Normal (length h0)) ∧
    invoke (length h0) c h = Some (h, Throw e) ∧
    MyBuilder.stringify (length h0) h = Some (h, Normal (render p pre)).
Proof.
  unfold mbind at 1, M_bind at 1. unfold start. rewrite start_on. intros Hc.
  apply (chain_throws _ p cs []) in Hc
    as (pre & c & rest & -> & Hpre & -> & Hg); [|apply lookup_new].
  exists pre, c, rest. rewrite insert_new in *. cbn [app] in *.
  split; [done|]. split.
  { unfold mbind at 1, M_bind at 1. by rewrite start_on. }
  assert (well_ordered pre) as Hwo.
  { apply (chain_on _ p pre []) in Hpre as (_ & _ & Hwo);
      [done|apply lookup_new|apply well_ordered_nil]. }
  split.
  - by rewrite (invoke_on _ _ p pre c (lookup_new h0 _)), Hg.
  - rewrite (stringify_at _ _ _ (lookup_new h0 _)).
    by rewrite text_of_state_of.
Qed.

Lemma failed_chain_keeps_accepted_calls_witness :
  ∃ pre c rest,
    [(Element, "div"); (Class, "a"); (Id, "main"); (Attr, "x")] =
      pre ++ c :: rest ∧
    (b ← start ""; chain b pre) [] =
      Some ([state_of "" [(Element, "div"); (Class, "a")]], Normal 0) ∧
    invoke 0 c [state_of "" [(Element, "div"); (Class, "a")]] =
      Some ([state_of "" [(Element, "div"); (Class, "a")]], Throw ordE) ∧
    MyBuilder.stringify 0 [state_of "" [(Element, "div"); (Class, "a")]] =
      Some ([state_of "" [(Element, "div"); (Class, "a")]],
            Normal (render "" pre)).
Proof.
  apply (failed_chain_keeps_accepted_calls ""
           [(Element, "div"); (Class, "a"); (Id, "main"); (Attr, "x")]
           [] [state_of "" [(Element, "div"); (Class, "a")]] ordE).
  reflexivity.
Defined.

(** X5. [stringify] and [getNulls] only read: on a live builder they
    return a string, never throw and leave the whole heap as it is, so that
    asking twice gives the same answer. *)
Theorem stringify_and_getNulls_only_read (h : heap) (r : ref) :
  (∀ h' o, MyBuilder.stringify r h = Some (h', o) →
           h' = h ∧ ∃ s, o = Normal s ∧
             MyBuilder.stringify r h' = Some (h', Normal s)) ∧
  (∀ h' o, MyBuilder.getNulls r h = Some (h', o) →
           h' = h ∧ ∃ s, o = Normal s ∧
             MyBuilder.getNulls r h' = Some (h', Normal s)).
Proof.
  destruct (h !! r) as [b|] eqn:Hr.
  - rewrite (stringify_at _ _ _ Hr), (getNulls_at _ _ _ Hr).
    split; intros h' o [= <- <-]; (split; [done|]); eexists; (split; [done|]).
    + by rewrite (stringify_at _ _ _ Hr).
    + by rewrite (getNulls_at _ _ _ Hr).
  - unfold MyBuilder.stringify, MyBuilder.getNulls. unfold_M.
    rewrite Hr. by split.
Qed.

(** X6. No method assigns the check strings or the error messages: a
    setter call, accepted or rejected, leaves them and the prefix text of
    its receiver as they were, and [selector] leaves them and all six
    category fields as they were. *)
Theorem methods_keep_constants (h : heap) (r : ref) (b : builder) :
  h !! r = Some b →
  (∀ c h' o, invoke r c h = Some (h', o) →
     ∃ b', h' !! r = Some b' ∧ same_constants b b' ∧
           selectorText b' = selectorText b) ∧
  (∀ v h' o, MyBuilder.selector r v h = Some (h', o) →
     ∃ b', h' !! r = Some b' ∧ same_constants b b' ∧
           selectorObject b' = selectorObject b).
Proof.
  intros Hr. assert (r < length h) as Hlt by by eapply lookup_lt_Some.
  split.
  - intros c h' o. rewrite (invoke_at _ _ _ Hr).
    destruct (guard c.1 b); intros [= <- <-].
    + by exists b.
    + exists (assign c b). by rewrite list_lookup_insert_eq.
  - intros v h' o. rewrite (selector_at _ _ _ Hr). intros [= <- <-].
    eexists. by rewrite list_lookup_insert_eq.
Qed.

Lemma methods_keep_constants_witness :
  (∀ c h' o, invoke 0 c [state_of "ul > li" [(Class, "a")]] = Some (h', o) →
     ∃ b', h' !! 0 = Some b' ∧
           same_constants (state_of "ul > li" [(Class, "a")]) b' ∧
           selectorText b' = selectorText (state_of "ul > li" [(Class, "a")])) ∧
  (∀ v h' o,
     MyBuilder.selector 0 v [state_of "ul > li" [(Class, "a")]] = Some (h', o) →
     ∃ b', h' !! 0 = Some b' ∧
           same_constants (state_of "ul > li" [(Class, "a")]) b' ∧
           selectorObject b' = selectorObject (state_of "ul > li" [(Class, "a")])).
Proof.
  apply (methods_keep_constants [state_of "ul > li" [(Class, "a")]] 0).
  reflexivity.
Defined.

(** X7. [selector] appends to the prefix text: two calls in a row do what
    one call with the two texts joined does, and a call with the empty text
    changes nothing. *)
Theorem selector_appends (h : heap) (r : ref) (u v : string) :
  (r1 ← MyBuilder.selector r u; MyBuilder.selector r1 v) h =
    MyBuilder.selector r (u +:+ v) h ∧
  (is_Some (h !! r) → MyBuilder.selector r "" h = Some (h, Normal r)).
Proof.
  destruct (h !! r) as [b|] eqn:Hr.
  - assert (r < length h) as Hlt by by eapply lookup_lt_Some. split.
    + unfold mbind, M_bind. rewrite !(selector_at _ _ _ Hr).
      rewrite (selector_at _ _ _ (list_lookup_insert_eq _ _ _ Hlt)).
      rewrite list_insert_insert_eq. cbn [selectorText MyBuilder.set_selectorText].
      by rewrite string_app_assoc.
    + intros _. rewrite (selector_at _ _ _ Hr), string_app_nil_r.
      rewrite list_insert_id; [done|]. by destruct b.
  - split; [|by intros [? ?]].
    unfold mbind, M_bind, MyBuilder.selector. unfold_M. by rewrite Hr.
Qed.

(** X8. [combine] allocates exactly one builder and writes nothing else:
    the heap keeps every builder it had, the operands among them, and gains
    a builder that is as the constructor makes it but for the prefix text. *)
Theorem combine_allocates_one_builder
    (h : heap) (b1 b2 : ref) (c s1 s2 : string) :
  MyBuilder.stringify b1 h = Some (h, Normal s1) →
  MyBuilder.stringify b2 h = Some (h, Normal s2) →
  cssSelectorBuilder.combine b1 c b2 h =
  Some (h ++ [MyBuilder.set_selectorText (s1 +:+ " " +:+ c +:+ " " +:+ s2)
                MyBuilder.fresh],
        Normal (length h)).
Proof.
  intros (x & Hx & _ & ->)%stringify_inv (y & Hy & _ & ->)%stringify_inv.
  by rewrite (combine_on _ _ _ _ _ _ Hx Hy).
Qed.

Lemma combine_allocates_one_builder_witness :
  cssSelectorBuilder.combine 0 "~" 0 [state_of "" [(Element, "p")]] =
  Some ([state_of "" [(Element, "p")]] ++
          [MyBuilder.set_selectorText ("p" +:+ " " +:+ "~" +:+ " " +:+ "p")
             MyBuilder.fresh],
        Normal 1).
Proof.
  apply (combine_allocates_one_builder [state_of "" [(Element, "p")]] 0 0 "~");
    reflexivity.
Defined.

(** X9. The builder that [combine] returns takes any one setter call, as a
    new builder does, and then renders the joined text followed by the
    piece of that call. *)
Theorem combined_builder_takes_any_setter
    (h : heap) (b1 b2 : ref) (c s1 s2 : string) (k : call) :
  MyBuilder.stringify b1 h = Some (h, Normal s1) →
  MyBuilder.stringify b2 h = Some (h, Normal s2) →
  ∃ h',
    (r ← cssSelectorBuilder.combine b1 c b2;
     r ← invoke r k;
     MyBuilder.stringify r) h =
    Some (h', Normal ((s1 +:+ " " +:+ c +:+ " " +:+ s2) +:+ piece k)).
Proof.
  intros (x & Hx & _ & ->)%stringify_inv (y & Hy & _ & ->)%stringify_inv.
  eexists. unfold mbind, M_bind. rewrite (combine_on _ _ _ _ _ _ Hx Hy).
  set (t := text_of x +:+ " " +:+ c +:+ " " +:+ text_of y).
  rewrite (invoke_on _ _ t [] k (lookup_new h _)).
  assert (guard k.1 (state_of t []) = None) as ->
    by (apply guard_none_iff; constructor).
  rewrite insert_new. rewrite (stringify_at _ _ _ (lookup_new h _)).
  rewrite text_of_state_of.
  - rewrite render_in_order by (repeat constructor). cbn [app pieces].
    by rewrite string_app_nil_r.
  - apply (well_ordered_snoc k t []); [|apply well_ordered_nil].
    apply guard_none_iff. constructor.
Qed.

Lemma combined_builder_takes_any_setter_witness :
  ∃ h',
    (r ← cssSelectorBuilder.combine 0 "+" 0;
     r ← invoke r (Element, "x");
     MyBuilder.stringify r) [state_of "" [(Element, "p")]] =
    Some (h', Normal (("p" +:+ " " +:+ "+" +:+ " " +:+ "p") +:+
                      piece (Element, "x"))).
Proof.
  apply (combined_builder_takes_any_setter
           [state_of "" [(Element, "p")]] 0 0 "+" "p" "p"); reflexivity.
Defined.

(** X10. Nesting [combine] to the left or to the right renders the same
    text: the three renderings joined by the two combinators. *)
Theorem combine_nesting_renders_alike
    (h : heap) (A B C : ref) (c1 c2 sA sB sC : string) :
  MyBuilder.stringify A h = Some (h, Normal sA) →
  MyBuilder.stringify B h = Some (h, Normal sB) →
  MyBuilder.stringify C h = Some (h, Normal sC) →
  ∃ hl hr,
    (ab ← cssSelectorBuilder.combine A c1 B;
     r ← cssSelectorBuilder.combine ab c2 C;
     MyBuilder.stringify r) h =
      Some (hl, Normal (sA +:+ " " +:+ c1 +:+ " " +:+ sB +:+ " " +:+ c2
                           +:+ " " +:+ sC)) ∧
    (bc ← cssSelectorBuilder.combine B c2 C;
     r ← cssSelectorBuilder.combine A c1 bc;
     MyBuilder.stringify r) h =
      Some (hr, Normal (sA +:+ " " +:+ c1 +:+ " " +:+ sB +:+ " " +:+ c2
                           +:+ " " +:+ sC)).
Proof.
  intros (a & Ha & _ & ->)%stringify_inv (b & Hb & _ & ->)%stringify_inv
         (k & Hk & _ & ->)%stringify_inv.
  eexists _, _. split; unfold mbind, M_bind.
  - rewrite (combine_on h A B c1 a b Ha Hb).
    rewrite (combine_on _ (length h) C c2 _ k (lookup_new h _))
      by by apply lookup_app_l_Some.
    rewrite (stringify_at _ _ _ (lookup_new _ _)).
    by rewrite !text_of_start, !string_app_assoc.
  - rewrite (combine_on h B C c2 b k Hb Hk).
    rewrite (combine_on _ A (length h) c1 a _ (lookup_app_l_Some _ _ _ _ Ha)
               (lookup_new h _)).
    rewrite (stringify_at _ _ _ (lookup_new _ _)).
    by rewrite !text_of_start.
Qed.

Lemma combine_nesting_renders_alike_witness :
  ∃ hl hr,
    (ab ← cssSelectorBuilder.combine 0 "+" 0;
     r ← cssSelectorBuilder.combine ab "~" 0;
     MyBuilder.stringify r) [state_of "" [(Element, "p")]] =
      Some (hl, Normal ("p" +:+ " " +:+ "+" +:+ " " +:+ "p" +:+ " " +:+ "~"
                           +:+ " " +:+ "p")) ∧
    (bc ← cssSelectorBuilder.combine 0 "~" 0;
     r ← cssSelectorBuilder.combine 0 "+" bc;
     MyBuilder.stringify r) [state_of "" [(Element, "p")]] =
      Some (hr, Normal ("p" +:+ " " +:+ "+" +:+ " " +:+ "p" +:+ " " +:+ "~"
                           +:+ " " +:+ "p")).
Proof.
  apply (combine_nesting_renders_alike
           [state_of "" [(Element, "p")]] 0 0 0 "+" "~" "p" "p" "p");
    reflexivity.
Defined.

(** ** Sessions of guarded calls *)

Lemma outcomes_length r p cs : ∀ hist,
  length (outcomes r p hist cs) = length cs.
Proof.
  induction cs as [|c cs IH]; intros hist; cbn [outcomes]; [done|].
  destruct (guard c.1 (state_of p hist)); cbn [length]; by rewrite IH.
Qed.

Lemma outcomes_in_order r p cs : ∀ hist,
  in_order hist →
  in_order (hist ++ accepted cs (outcomes r p hist cs)).
Proof.
  induction cs as [|c cs IH]; intros hist Hin; cbn [outcomes accepted].
  - by rewrite app_nil_r.
  - destruct (guard c.1 (state_of p hist)) eqn:Hg; cbn [accepted].
    + by apply IH.
    + change (hist ++ c :: ?l) with (hist ++ [c] ++ l).
      rewrite app_assoc. apply IH, in_order_snoc. split; [done|].
      by apply (guard_none_iff c.1 p hist).
Qed.

Lemma outcomes_app r p cs1 cs2 : ∀ hist,
  outcomes r p hist (cs1 ++ cs2) =
  outcomes r p hist cs1 ++
  outcomes r p (hist ++ accepted cs1 (outcomes r p hist cs1)) cs2.
Proof.
  induction cs1 as [|c cs1 IH]; intros hist; cbn [app outcomes accepted].
  - by rewrite app_nil_r.
  - destruct (guard c.1 (state_of p hist)); cbn [accepted app];
      rewrite IH; [done|].
    by rewrite <- app_assoc.
Qed.

Lemma accepted_app cs1 cs2 os1 os2 :
  length os1 = length cs1 →
  accepted (cs1 ++ cs2) (os1 ++ os2) = accepted cs1 os1 ++ accepted cs2 os2.
Proof.
  revert os1. induction cs1 as [|c cs1 IH]; intros [|[?|?] os1] Hlen;
    simplify_eq/=; [done|..]; by rewrite IH.
Qed.

Lemma touched_app d cs1 cs2 :
  touched d (cs1 ++ cs2) ↔ touched d cs1 ∨ touched d cs2.
Proof. unfold touched. by rewrite fmap_app, elem_of_app. Qed.

(** What a setter throws after [hist], it throws after everything that the
    builder accepts later. *)
Lemma guard_stays k p hist more e :
  in_order (hist ++ more) →
  guard k (state_of p hist) = Some e →
  guard k (state_of p (hist ++ more)) = Some e.
Proof.
  intros Hin. rewrite !guard_state_of.
  destruct (decide (singular k = true ∧ touched k hist)) as [Hu|Hu].
  - rewrite (bool_decide_eq_true_2 _ Hu). intros <-.
    rewrite bool_decide_eq_true_2; [done|].
    split; [apply Hu|]. apply touched_app. left. apply Hu.
  - rewrite (bool_decide_eq_false_2 _ Hu).
    destruct (decide (∃ d, before k d ∧ touched d hist)) as [Hl|Hl];
      [|by rewrite (bool_decide_eq_false_2 _ Hl)].
    rewrite (bool_decide_eq_true_2 _ Hl). intros <-.
    destruct Hl as (d & Hkd & Hd).
    rewrite bool_decide_eq_false_2.
    + rewrite bool_decide_eq_true_2; [done|].
      exists d. split; [done|]. apply touched_app. by left.
    + intros [Hs [Hk|Hk]%touched_app]; [by apply Hu|].
      unfold in_order in Hin. rewrite fmap_app in Hin.
      destruct (StronglySorted_app_1_elem_of _ _ _ _ _ Hin Hd Hk)
        as [?|[-> _]]; unfold before in *; lia.
Qed.

Lemma blank_unset_iff c hist :
  blank (field c (object_of hist)) = true ↔ unset hist c.
Proof.
  unfold unset.
  destruct c; cbn [field object_of selectorObject.element selectorObject.id
    selectorObject.class selectorObject.attr selectorObject.pseudoClass
    selectorObject.pseudoElement];
    destruct (fragments _ hist) as [|v vs]; cbn [single wrap_all head];
    try (split; [by left | done]);
    try (split; [intros Hb; by vm_compute in Hb | by intros [?|[? ?]]]).
  change (blank (Str ("" +:+ v))) with (String.eqb v ""). rewrite String.eqb_eq.
  split; [intros ->; by right | by intros [?|[_ [= ->]]]].
Qed.

Lemma blank_unset c hist :
  blank (field c (object_of hist)) = bool_decide (unset hist c).
Proof.
  apply eq_true_iff_eq. by rewrite blank_unset_iff, bool_decide_eq_true.
Qed.

(** X11. A session of guarded setter calls on a new builder comes to the
    heap that the fluent chain of its accepted calls alone comes to:
    rejected calls leave no trace.  The builder renders the prefix text and
    the pieces of the accepted calls in call order. *)
Theorem session_is_chain_of_accepted (p : string) (cs : list call) (h0 : heap) :
  ∃ h r os,
    session p cs h0 = Some (h, Normal (r, os)) ∧
    (b ← start p; chain b (accepted cs os)) h0 = Some (h, Normal r) ∧
    MyBuilder.stringify r h =
      Some (h, Normal (p +:+ pieces (accepted cs os))).
Proof.
  eexists _, _, _. split; [apply session_on|].
  set (hist := accepted cs _).
  assert (in_order hist) as Hin
    by (apply (outcomes_in_order _ _ _ []); constructor).
  assert (well_ordered hist) as Hwo
    by (apply (outcomes_well_ordered _ _ _ []), well_ordered_nil).
  split.
  - unfold mbind at 1, M_bind at 1. unfold start. rewrite start_on.
    destruct (proj2 (chain_accepts (length h0) p hist [] _ (lookup_new h0 _)
                       (SSorted_nil _)) Hin) as (h' & r' & Hc).
    rewrite Hc.
    apply (chain_on _ p hist []) in Hc as (-> & -> & _);
      [|apply lookup_new|apply well_ordered_nil].
    by rewrite insert_new.
  - rewrite (stringify_at _ _ _ (lookup_new h0 _)).
    by rewrite text_of_state_of, render_in_order.
Qed.

(** X12. A builder never takes back a rejection: when a setter call is
    rejected, every later call of the same setter on that builder,
    whatever was called in between, is rejected with the same error. *)
Theorem rejected_setter_stays_rejected
    (p : string) (cs cs' : list call) (k : category) (v v' : string)
    (h0 h1 : heap) (r1 : ref) (os1 : list (completion ref)) (e : exn) :
  session p (cs ++ [(k, v)]) h0 = Some (h1, Normal (r1, os1)) →
  last os1 = Some (Throw e) →
  ∃ h2 r2 os2,
    session p (cs ++ (k, v) :: cs' ++ [(k, v')]) h0 =
      Some (h2, Normal (r2, os2)) ∧
    last os2 = Some (Throw e).
Proof.
  rewrite !session_on. intros [= <- <- <-]. rewrite outcomes_app.
  cbn [outcomes fst]. set (hist := [] ++ accepted cs _).
  destruct (guard k (state_of p hist)) as [e'|] eqn:Hg;
    rewrite last_snoc; intros [=]; subst e'.
  eexists _, _, _. split; [done|].
  rewrite outcomes_app. cbn [outcomes fst]. fold hist. rewrite Hg.
  rewrite outcomes_app. cbn [outcomes fst].
  rewrite (guard_stays k p hist _ e);
    [by rewrite app_comm_cons, app_assoc, last_snoc| |done].
  apply outcomes_in_order. apply (outcomes_in_order _ _ _ []). constructor.
Qed.

Lemma rejected_setter_stays_rejected_witness :
  ∃ h2 r2 os2,
    session "" ([(Class, "a")] ++ (Id, "x") :: [(Class, "b"); (Attr, "t")]
                  ++ [(Id, "y")]) [] =
      Some (h2, Normal (r2, os2)) ∧
    last os2 = Some (Throw ordE).
Proof.
  apply (rejected_setter_stays_rejected "" [(Class, "a")]
           [(Class, "b"); (Attr, "t")] Id "x" "y" []
           [state_of "" [(Class, "a")]] 0 [Normal 0; Throw ordE] ordE);
    reflexivity.
Defined.

(** X13. On any builder, [element] is accepted only as the very first
    accepted call; [pseudoElement] is never rejected for ordering; and once
    a pseudo-element is set the builder is closed: every setter call
    throws. *)
Theorem element_opens_pseudoElement_closes
    (p : string) (cs : list call) (h0 : heap) :
  ∃ h r os,
    session p cs h0 = Some (h, Normal (r, os)) ∧
    (∀ v, (∃ h', invoke r (Element, v) h = Some (h', Normal r)) ↔
          accepted cs os = []) ∧
    (∀ v h' e, invoke r (PseudoElement, v) h = Some (h', Throw e) →
               e = uniE) ∧
    (touched PseudoElement (accepted cs os) →
     ∀ c, ∃ e, invoke r c h = Some (h, Throw e)).
Proof.
  eexists _, _, _. split; [apply session_on|].
  set (hist := accepted cs _).
  assert (∀ c, invoke (length h0) c (h0 ++ [state_of p hist]) =
    match guard c.1 (state_of p hist) with
    | Some e => Some (h0 ++ [state_of p hist], Throw e)
    | None => Some (h0 ++ [state_of p (hist ++ [c])], Normal (length h0))
    end) as Hinv.
  { intros c. rewrite (invoke_on _ _ p hist c (lookup_new h0 _)).
    by rewrite insert_new. }
  split; [|split].
  - intros v. rewrite Hinv. cbn [fst].
    destruct (guard Element (state_of p hist)) eqn:Hg.
    + split; [by intros [? ?]|]. intros Hnil. rewrite Hnil in Hg.
      by rewrite (proj2 (guard_none_iff Element p []) (Forall_nil_2 _)) in Hg.
    + split; [|by eexists]. intros _.
      apply guard_none_iff in Hg. destruct hist as [|[d w] hist']; [done|].
      apply Forall_cons in Hg as [[Hd|[-> Hd]] _]; [|done].
      unfold before in Hd. cbn in Hd. lia.
  - intros v h' e. rewrite Hinv, guard_state_of. cbn [fst].
    case_bool_decide; [by intros [=]|].
    rewrite bool_decide_eq_false_2; [done|].
    intros (d & Hd & _). unfold before in Hd. destruct d; cbn in Hd; lia.
  - intros Hpe c. rewrite Hinv.
    destruct (guard c.1 (state_of p hist)) eqn:Hg; [by eexists|].
    exfalso. apply guard_none_iff in Hg. rewrite Forall_forall in Hg.
    destruct (Hg _ Hpe) as [Hd|[_ Hd]]; [|done].
    unfold before in Hd. destruct c as [[] w]; cbn in Hd; lia.
Qed.

(** X14. On any builder, [getNulls()] returns the property names of the
    categories that are still unset, in category order, joined by single
    spaces; an element that was set to the empty string still counts as
    unset there. *)
Theorem getNulls_lists_unset_categories
    (p : string) (cs : list call) (h0 : heap) :
  ∃ h r os,
    session p cs h0 = Some (h, Normal (r, os)) ∧
    MyBuilder.getNulls r h =
      Some (h, Normal (join " "
        (Str <$> (key_of <$> filter (unset (accepted cs os)) categories)))).
Proof.
  eexists _, _, _. split; [apply session_on|].
  set (hist := accepted cs _).
  rewrite (getNulls_at _ _ _ (lookup_new h0 _)). unfold state_of.
  rewrite nulls_made, !blank_unset. unfold categories.
  rewrite !filter_cons, filter_nil. unfold bool_decide, decide.
  by destruct (unset_dec hist Element), (unset_dec hist Id),
    (unset_dec hist Class), (unset_dec hist Attr),
    (unset_dec hist PseudoClass), (unset_dec hist PseudoElement).
Qed.


(** X15. On any builder a setter throws nothing but the two errors of the
    constructor: the uniqueness error, which only [element], [id] and
    [pseudoElement] throw, and the ordering error. *)
Theorem setters_throw_only_two_errors
    (p : string) (cs : list call) (h0 : heap) :
  ∃ h r os,
    session p cs h0 = Some (h, Normal (r, os)) ∧
    ∀ c h' e, invoke r c h = Some (h', Throw e) →
      (e = uniE ∧ singular c.1 = true) ∨ e = ordE.
Proof.
  eexists _, _, _. split; [apply session_on|].
  intros c h' e. rewrite (invoke_on _ _ p _ c (lookup_new h0 _)).
  rewrite guard_state_of.
  case_bool_decide as Hu; [intros [= _ <-]; left; split; [done|apply Hu]|].
  case_bool_decide; [intros [= _ <-]; by right|done].
Qed.

(** X16. [selector] called on a builder that already holds fragments puts
    its text behind the prefix text and in front of all fragments: the
    builder then renders as if it had been started with the longer prefix. *)
Theorem selector_text_precedes_fragments
    (p v : string) (cs : list call) (h0 : heap) :
  ∃ h r os,
    session p cs h0 = Some (h, Normal (r, os)) ∧
    ∃ h',
      (r' ← MyBuilder.selector r v; MyBuilder.stringify r') h =
      Some (h', Normal ((p +:+ v) +:+ pieces (accepted cs os))).
Proof.
  eexists _, _, _. split; [apply session_on|].
  set (hist := accepted cs _). eexists. unfold mbind, M_bind.
  rewrite (selector_at _ _ _ (lookup_new h0 _)), insert_new.
  rewrite (stringify_at _ _ _ (lookup_new h0 _)).
  change (MyBuilder.set_selectorText _ (state_of p hist))
    with (state_of (p +:+ v) hist).
  rewrite text_of_state_of
    by (apply (outcomes_well_ordered _ _ _ []), well_ordered_nil).
  rewrite render_in_order; [done|].
  apply (outcomes_in_order _ _ _ []). constructor.
Qed.
